(** * Lagoon CLI wrapper: command construction, policy guards and executor

    A shallow embedding of the secure command layer of the wrapper:
    - [src/command/GitCommand.mjs]  (classes [GitCommand] and [LagoonCommand]),
    - the [LagoonExecutor] class (method [execute]),
    - [logger.mjs]                  ([logAction], [logError]),
    - [src/lagoon-api.mjs]          ([deleteEnvironment], [generateLoginLink],
                                     [gitUrlToGithubUrl], [deployBranch]),
    - [src/interactive.mjs]         (the deletion loop of [deleteEnvironmentFlow]).

    JavaScript strings are modelled by [string]; every literal the code
    compares against is ASCII, so code units and bytes coincide on them. *)

From Stdlib Require Import List String Ascii Bool Arith Lia.
From Stdlib Require Import DecimalString.
Import ListNotations.
Open Scope list_scope.
Open Scope string_scope.

Set Implicit Arguments.

(* ===================================================================== *)
(** * JavaScript values, errors and string primitives *)
(* ===================================================================== *)

Module Js.

(** The values the modelled functions receive for their name arguments:
    a string, or one of the two nullish values. *)
Inductive value : Type :=
| Undefined
| Null
| Str (s : string).

(** Errors carry their constructor and their [message]. *)
Inductive error : Type :=
| TypeError (msg : string)
| Error (msg : string).

Definition message (e : error) : string :=
  match e with
  | TypeError m => m
  | Error m => m
  end.

(** [if (v)]: the empty string, [null] and [undefined] are falsy. *)
Definition truthy (v : value) : bool :=
  match v with
  | Str s => negb (s =? "")
  | _ => false
  end.

Definition falsy (v : value) : bool := negb (truthy v).

(** [String(v)], also what a template literal and [RegExp.test] apply. *)
Definition toString (v : value) : string :=
  match v with
  | Undefined => "undefined"
  | Null => "null"
  | Str s => s
  end.

(** [v === 'lit'] *)
Definition strictEq (v : value) (lit : string) : bool :=
  match v with
  | Str s => s =? lit
  | _ => false
  end.

(** [s.startsWith(p)] on a string. *)
Definition str_startsWith (s p : string) : bool := String.prefix p s.

(** [v.startsWith(p)]: reading a property of a nullish value throws. *)
Definition startsWith (v : value) (p : string) : error + bool :=
  match v with
  | Str s => inr (str_startsWith s p)
  | Null =>
      inl (TypeError "Cannot read properties of null (reading 'startsWith')")
  | Undefined =>
      inl (TypeError
             "Cannot read properties of undefined (reading 'startsWith')")
  end.

(** [s.includes(p)] *)
Fixpoint includes (s p : string) : bool :=
  if String.prefix p s then true
  else match s with
       | EmptyString => false
       | String _ rest => includes rest p
       end.

Fixpoint drop (n : nat) (s : string) : string :=
  match n, s with
  | O, _ => s
  | S k, String _ rest => drop k rest
  | S _, EmptyString => EmptyString
  end.

(** [s.replace(pat, rep)] with a string pattern: only the FIRST
    occurrence of [pat] is replaced. *)
Fixpoint replace (s pat rep : string) : string :=
  if String.prefix pat s then rep ++ drop (String.length pat) s
  else match s with
       | EmptyString => EmptyString
       | String c rest => String c (replace rest pat rep)
       end.

(** [xs.join(sep)] *)
Fixpoint join (sep : string) (xs : list string) : string :=
  match xs with
  | [] => ""
  | [x] => x
  | x :: rest => x ++ sep ++ join sep rest
  end.

End Js.

(* ===================================================================== *)
(** * Command model: [GitCommand] and [LagoonCommand] *)
(* ===================================================================== *)

(** What the executor reads from a command object: [getBaseCommand()],
    [getArgs()] and [toString()]. *)
Class Command (C : Type) : Type := {
  getBaseCommand : C -> string;
  getArgs : C -> list string;
  toString : C -> string
}.

(** [push] of a truthy value appends its string; the builders only push
    after an [if (value)] test, so the value is a non-empty string. *)
Definition push_if (v : Js.value) (tokens : string -> list string)
           (args : list string) : list string :=
  if Js.truthy v then (args ++ tokens (Js.toString v))%list else args.

Module GitCommand.

Record t : Type := mk { baseCommand : string; args : list string }.

Definition new : t := {| baseCommand := "git"; args := [] |}.

(** [lsRemote] assigns the argument array instead of pushing. *)
Definition lsRemote (gitUrl : Js.value) (c : t) : t :=
  if Js.truthy gitUrl
  then {| baseCommand := baseCommand c;
          args := ["ls-remote"; "--heads"; Js.toString gitUrl] |}
  else c.

Definition getCommandArray (c : t) : list string := baseCommand c :: args c.

Definition toString (c : t) : string :=
  baseCommand c ++ " " ++ Js.join " " (args c).

End GitCommand.

Module LagoonCommand.

Record t : Type := mk { baseCommand : string; args : list string }.

Definition new : t := {| baseCommand := "lagoon"; args := [] |}.

Definition push (tokens : list string) (c : t) : t :=
  {| baseCommand := baseCommand c; args := (args c ++ tokens)%list |}.

Definition push_value (v : Js.value) (tokens : string -> list string)
           (c : t) : t :=
  {| baseCommand := baseCommand c; args := push_if v tokens (args c) |}.

Definition withInstance (instance : Js.value) : t -> t :=
  push_value instance (fun s => ["-l"; s]).

Definition withProject (project : Js.value) : t -> t :=
  push_value project (fun s => ["-p"; s]).

Definition withEnvironment (environment : Js.value) : t -> t :=
  push_value environment (fun s => ["-e"; s]).

Definition withJsonOutput : t -> t := push ["--output-json"].

Definition withForce : t -> t := push ["--force"].

Definition listConfigs : t -> t := push ["config"; "list"].

Definition listProjects : t -> t := push ["list"; "projects"].

Definition listEnvironments : t -> t := push ["list"; "environments"].

Definition listUsers : t -> t := push ["list"; "all-users"].

Definition deleteEnvironment (environmentName : Js.value) : t -> t :=
  push_value environmentName
             (fun s => ["delete"; "environment"; "--environment"; s]).

Definition deployBranch (branchName : Js.value) : t -> t :=
  push_value branchName (fun s => ["deploy"; "branch"; "--branch"; s]).

Definition login : t -> t := push ["login"].

Definition ssh (command : Js.value) : t -> t :=
  push_value command (fun s => ["ssh"; "-C"; s]).

Definition getCommandArray (c : t) : list string := baseCommand c :: args c.

Definition toString (c : t) : string :=
  baseCommand c ++ " " ++ Js.join " " (args c).

End LagoonCommand.

#[export] Instance GitCommand_Command : Command GitCommand.t := {
  getBaseCommand := GitCommand.baseCommand;
  getArgs := GitCommand.args;
  toString := GitCommand.toString
}.

#[export] Instance LagoonCommand_Command : Command LagoonCommand.t := {
  getBaseCommand := LagoonCommand.baseCommand;
  getArgs := LagoonCommand.args;
  toString := LagoonCommand.toString
}.

(** Method chaining [c.f().g()] reads left to right. *)
Notation "c '|>' f" := (f c) (at level 45, left associativity, only parsing).


(* ===================================================================== *)
(** * The host: processes, console, logger, JSON *)
(* ===================================================================== *)

(** What [execFile] resolves to. *)
Record ExecResult : Type := { stdout : string; stderr : string }.

(** The parts of the host the modelled code calls but does not define:
    the operating system behind [child_process.execFile], the [chalk]
    colouring functions, and [JSON] with the reads the code performs on a
    parsed response.  [World] is the state of everything outside the
    program (processes, the cluster, the file system). *)
Class Host : Type := {
  World : Type;
  (** [promisify(execFile)(file, args)]: rejects with an error on a spawn
      failure or a nonzero exit, resolves with [{ stdout, stderr }]. *)
  os_execFile :
    string -> list string -> World -> (Js.error + ExecResult) * World;
  chalk_blue : string -> string;
  chalk_bold : string -> string;
  chalk_green : string -> string;
  chalk_yellow : string -> string;
  Json : Type;
  JSON_parse : string -> Js.error + Json;
  JSON_stringify : Json -> string;
  (** [response.name]: throws when [response] is [null]. *)
  Json_get : Json -> string -> Js.error + Json;
  (** [v === 'lit'] *)
  Json_strictEq : Json -> string -> bool;
  Json_truthy : Json -> bool;
  (** [String(v)] as a template literal applies it. *)
  Json_toString : Json -> string;
  (** [s.trim()] *)
  String_trim : string -> string;
  (** [new Date().toISOString()] *)
  Date_toISOString : World -> string * World;
  (** [fs.appendFileSync(path, data)]: [Some e] when it throws. *)
  fs_appendFileSync : string -> string -> World -> option Js.error * World;
  path_join : string -> string -> string;
  (** The [.logs] directory next to the module, fixed at load time. *)
  LOG_DIR : string
}.

(** Calls that leave the program, in the order they are made. *)
Inductive Event : Type :=
| Console (line : string)
| Spawn (file : string) (argv : list string)
| LogAction (action command result : string)
| LogError (action command : string) (err : Js.error)
| SpinnerStart (text : string)
| SpinnerSucceed (text : string)
| SpinnerFail (text : string).

Section Effects.

Context {H : Host}.

(** The outcome of running a piece of the program from a world: the calls
    it made, the world it left, and its completion (thrown error or value). *)
Record Outcome (A : Type) : Type := {
  events : list Event;
  final : World;
  result : Js.error + A
}.

Definition M (A : Type) : Type := World -> Outcome A.

Definition ret {A} (a : A) : M A :=
  fun w => {| events := []; final := w; result := inr a |}.

Definition throw {A} (e : Js.error) : M A :=
  fun w => {| events := []; final := w; result := inl e |}.

Definition bind {A B} (m : M A) (k : A -> M B) : M B :=
  fun w =>
    let o := m w in
    match result o with
    | inl e => {| events := events o; final := final o; result := inl e |}
    | inr a =>
        let o' := k a (final o) in
        {| events := (events o ++ events o')%list;
           final := final o';
           result := result o' |}
    end.

(** [try { body } catch (error) { handler }] *)
Definition try_catch {A} (body : M A) (handler : Js.error -> M A) : M A :=
  fun w =>
    let o := body w in
    match result o with
    | inr a => o
    | inl e =>
        let o' := handler e (final o) in
        {| events := (events o ++ events o')%list;
           final := final o';
           result := result o' |}
    end.

(** A pure computation that may throw. *)
Definition lift {A} (r : Js.error + A) : M A :=
  fun w => {| events := []; final := w; result := r |}.

Definition emit (ev : Event) : M unit :=
  fun w => {| events := [ev]; final := w; result := inr tt |}.

Definition console_log (line : string) : M unit := emit (Console line).

(** [await this.execFileAsync(file, args)] *)
Definition execFileAsync (file : string) (args : list string)
  : M ExecResult :=
  fun w =>
    let (r, w') := os_execFile file args w in
    {| events := [Spawn file args]; final := w'; result := r |}.

(** A logger method: it may change the world (append to a file) and may
    itself throw. *)
Definition LoggerMethod (X : Type) : Type :=
  string -> string -> X -> World -> option Js.error * World.

(** The logging collaborator handed to the executor.  A field is [None]
    when [typeof logger.method === 'function'] is false. *)
Record Logger : Type := {
  logAction : option (LoggerMethod string);
  logError : option (LoggerMethod Js.error)
}.

Definition call_method {X} (f : LoggerMethod X) (ev : Event)
           (action command : string) (x : X) : M unit :=
  fun w =>
    let (thrown, w') := f action command x w in
    {| events := [ev];
       final := w';
       result := match thrown with
                 | Some e => inl e
                 | None => inr tt
                 end |}.

(** [if (this.logger && typeof this.logger.logAction === 'function')
       this.logger.logAction(action, command, result)] *)
Definition guarded_logAction (logger : option Logger)
           (action command res : string) : M unit :=
  match logger with
  | Some l =>
      match logAction l with
      | Some f => call_method f (LogAction action command res)
                              action command res
      | None => ret tt
      end
  | None => ret tt
  end.

(** [if (this.logger && typeof this.logger.logError === 'function')
       this.logger.logError(action, command, error)] *)
Definition guarded_logError (logger : option Logger)
           (action command : string) (error : Js.error) : M unit :=
  match logger with
  | Some l =>
      match logError l with
      | Some f => call_method f (LogError action command error)
                              action command error
      | None => ret tt
      end
  | None => ret tt
  end.

End Effects.

Arguments Outcome {H} A.
Arguments M {H} A.

Declare Scope js_scope.
Delimit Scope js_scope with js.
Notation "x <- m ;; k" := (bind m (fun x => k))
  (at level 61, m at next level, right associativity) : js_scope.
Notation "m ;; k" := (bind m (fun _ => k))
  (at level 61, right associativity) : js_scope.
Open Scope js_scope.

(* ===================================================================== *)
(** * [LagoonExecutor] *)
(* ===================================================================== *)

Section Executor.

Context {H : Host}.

(** [LagoonExecutor.execute(command, action)] for an executor constructed
    with [logger]. *)
Definition execute {C} `{Command C} (logger : option Logger)
           (command : C) (action : string) : M ExecResult :=
  let baseCommand := getBaseCommand command in
  let args := getArgs command in
  console_log
    (chalk_blue ("Executing: " ++ chalk_bold (toString command))) ;;
  try_catch
    (result <- execFileAsync baseCommand args ;;
     guarded_logAction logger action (toString command) "Success" ;;
     ret result)
    (fun error =>
       guarded_logError logger action (toString command) error ;;
       throw error).

End Executor.

(* ===================================================================== *)
(** * [logger.mjs] *)
(* ===================================================================== *)

(** [s.split(sep)[0]] for a one-character separator. *)
Fixpoint split_head (sep : ascii) (s : string) : string :=
  match s with
  | EmptyString => EmptyString
  | String c rest =>
      if Ascii.eqb c sep then EmptyString else String c (split_head sep rest)
  end.

(** [s.replace(/c/g, '')] for a one-character pattern. *)
Fixpoint remove_all (c : ascii) (s : string) : string :=
  match s with
  | EmptyString => EmptyString
  | String d rest =>
      if Ascii.eqb d c then remove_all c rest else String d (remove_all c rest)
  end.

Section LoggerModule.

Context {H : Host}.

Definition now_iso : M string :=
  fun w =>
    let (t, w') := Date_toISOString w in
    {| events := []; final := w'; result := inr t |}.

Definition appendFileSync (path data : string) : M unit :=
  fun w =>
    let (thrown, w') := fs_appendFileSync path data w in
    {| events := [];
       final := w';
       result := match thrown with
                 | Some e => inl e
                 | None => inr tt
                 end |}.

Definition getLogFilePath : M string :=
  now <- now_iso ;;
  let dateStr := remove_all "-" (split_head "T" now) in
  ret (path_join LOG_DIR ("log--" ++ dateStr ++ ".txt")).

Definition newline : string := String (ascii_of_nat 10) EmptyString.

Definition logger_logAction (action command res : string) : M unit :=
  timestamp <- now_iso ;;
  let logMessage :=
    "[" ++ timestamp ++ "] ACTION: " ++ action ++ " | COMMAND: " ++ command
    ++ (if negb (res =? "") then " | RESULT: " ++ res else "") ++ newline in
  logFilePath <- getLogFilePath ;;
  appendFileSync logFilePath logMessage.

Definition logger_logError (action command : string) (error : Js.error)
  : M unit :=
  timestamp <- now_iso ;;
  let logMessage :=
    "[" ++ timestamp ++ "] ERROR: " ++ action ++ " | COMMAND: " ++ command
    ++ " | ERROR: " ++ Js.message error ++ newline in
  logFilePath <- getLogFilePath ;;
  appendFileSync logFilePath logMessage.

(** A function of the program seen as a logger method of the executor. *)
Definition as_method {X} (f : string -> string -> X -> M unit)
  : LoggerMethod X :=
  fun action command x w =>
    let o := f action command x w in
    (match result o with
     | inl e => Some e
     | inr _ => None
     end, final o).

End LoggerModule.

(* ===================================================================== *)
(** * [lagoon-api.mjs] *)
(* ===================================================================== *)

(** The character class [[a-zA-Z0-9_./-]]. *)
Definition branch_char (c : ascii) : bool :=
  let n := nat_of_ascii c in
  ((97 <=? n)%nat && (n <=? 122)%nat)
  || ((65 <=? n)%nat && (n <=? 90)%nat)
  || ((48 <=? n)%nat && (n <=? 57)%nat)
  || Ascii.eqb c "_" || Ascii.eqb c "." || Ascii.eqb c "/" || Ascii.eqb c "-".

Fixpoint all_chars (p : ascii -> bool) (s : string) : bool :=
  match s with
  | EmptyString => true
  | String c rest => p c && all_chars p rest
  end.

(** [/^[a-zA-Z0-9_./-]+$/.test(branch)]: the argument is converted with
    [String], the [+] asks for at least one character, and without the
    [m] flag [$] only matches at the very end of the input. *)
Definition branch_regex_test (branch : Js.value) : bool :=
  match Js.toString branch with
  | EmptyString => false
  | String c rest => branch_char c && all_chars branch_char rest
  end.

(** [gitUrlToGithubUrl(gitUrl)]; [None] is the [null] it returns. *)
Definition gitUrlToGithubUrl (gitUrl : Js.value) : option string :=
  if negb (Js.truthy gitUrl) then None
  else
    let s := Js.toString gitUrl in
    if Js.str_startsWith s "git@github.com:" then
      let path := Js.replace (Js.replace s "git@github.com:" "") ".git" "" in
      Some ("https://github.com/" ++ path)
    else if Js.includes s "github.com" then
      Some (Js.replace s ".git" "")
    else None.

Definition invalid_branch_message : string :=
  "Invalid branch name. Branch names must contain only alphanumeric characters, slashes, underscores, hyphens, and periods.".

(** What [deployBranch] returns. *)
Record DeployStarted : Type := { success : bool; message : string }.

(** [a || b] on booleans where [b] may throw and is only evaluated when
    [a] is false. *)
Definition or_else (a : bool) (b : Js.error + bool) : Js.error + bool :=
  if a then inr true else b.

(** The condition of the first [if] of [deleteEnvironment]. *)
Definition deleteEnvironment_protected (environment : Js.value)
  : Js.error + bool :=
  or_else (Js.strictEq environment "production")
    (or_else (Js.strictEq environment "master")
       (or_else (Js.strictEq environment "develop")
          (Js.startsWith environment "project/"))).

(** The condition of the first [if] of [generateLoginLink]. *)
Definition generateLoginLink_protected (environment : Js.value) : bool :=
  Js.strictEq environment "production" || Js.strictEq environment "master".

Section LagoonApi.

Context {H : Host}.

(** [const executor = new LagoonExecutor({ logAction, logError })] *)
Definition executor_logger : option Logger :=
  Some {| logAction := Some (as_method logger_logAction);
          logError := Some (as_method logger_logError) |}.

Definition execCommand {C} `{Command C} (command : C) (action : string)
  : M ExecResult :=
  execute executor_logger command action.

(** The command [deleteEnvironment] builds. *)
Definition deleteEnvironment_command (instance project environment : Js.value)
  : LagoonCommand.t :=
  LagoonCommand.new
  |> LagoonCommand.withInstance instance
  |> LagoonCommand.withProject project
  |> LagoonCommand.deleteEnvironment environment
  |> LagoonCommand.withForce
  |> LagoonCommand.withJsonOutput.

(** The command [generateLoginLink] builds. *)
Definition generateLoginLink_command (instance project environment : Js.value)
  : LagoonCommand.t :=
  LagoonCommand.new
  |> LagoonCommand.withInstance instance
  |> LagoonCommand.withProject project
  |> LagoonCommand.withEnvironment environment
  |> LagoonCommand.ssh (Js.Str "drush user:unblock --uid=1 && drush uli").

Definition deleteEnvironment (instance project environment : Js.value)
  : M bool :=
  protected <- lift (deleteEnvironment_protected environment) ;;
  if protected : bool then
    throw (Js.Error ("Cannot delete protected environment: "
                     ++ Js.toString environment))
  else
    try_catch
      (let command :=
         deleteEnvironment_command instance project environment in
       out <- execCommand command
                ("Delete Environment " ++ Js.toString environment
                 ++ " from " ++ Js.toString project) ;;
       response <- lift (JSON_parse (stdout out)) ;;
       res <- lift (Json_get response "result") ;;
       if Json_strictEq res "success" then
         console_log (chalk_green ("Environment " ++ Js.toString environment
                                   ++ " deleted successfully")) ;;
         ret true
       else
         throw (Js.Error ("Failed to delete environment "
                          ++ Js.toString environment ++ ": "
                          ++ Json_toString response)))
      (fun error =>
         throw (Js.Error ("Failed to delete environment "
                          ++ Js.toString environment ++ ": "
                          ++ Js.message error))).

Definition generateLoginLink (instance project environment : Js.value)
  : M string :=
  if generateLoginLink_protected environment then
    throw (Js.Error ("Cannot generate login link for protected environment: "
                     ++ Js.toString environment))
  else
    try_catch
      (let command :=
         generateLoginLink_command instance project environment in
       out <- execCommand command
                ("Generate Login Link for " ++ Js.toString environment
                 ++ " in " ++ Js.toString project) ;;
       ret (String_trim (stdout out)))
      (fun error =>
         throw (Js.Error ("Failed to generate login link for environment "
                          ++ Js.toString environment ++ ": "
                          ++ Js.message error))).

(** The command [deployBranch] builds once the branch passed the test. *)
Definition deployBranch_command (instance project branch : Js.value)
  : LagoonCommand.t :=
  LagoonCommand.new
  |> LagoonCommand.withInstance instance
  |> LagoonCommand.withProject project
  |> LagoonCommand.deployBranch branch
  |> LagoonCommand.withJsonOutput.

(** [response.result] is read once here: on a parsed JSON value a second
    read of the same property gives the same value. *)
Definition deployBranch (instance project branch : Js.value)
  : M DeployStarted :=
  try_catch
    ((if negb (branch_regex_test branch)
      then throw (Js.Error invalid_branch_message)
      else ret tt) ;;
     let command := deployBranch_command instance project branch in
     out <- execCommand command
              ("Deploy Branch " ++ Js.toString branch
               ++ " to " ++ Js.toString project) ;;
     response <- lift (JSON_parse (stdout out)) ;;
     res <- lift (Json_get response "result") ;;
     if Json_strictEq res "success" then
       ret {| success := true;
              message := "Branch " ++ Js.toString branch
                         ++ " is being deployed to "
                         ++ Js.toString project |}
     else if Json_strictEq res "error" then
       msg <- lift (Json_get response "message") ;;
       throw (Js.Error ("Failed to deploy branch " ++ Js.toString branch
                        ++ ": "
                        ++ (if Json_truthy msg then Json_toString msg
                            else JSON_stringify response)))
     else
       throw (Js.Error ("Unexpected response when deploying branch "
                        ++ Js.toString branch ++ ": "
                        ++ JSON_stringify response)))
    (fun error =>
       throw (Js.Error ("Failed to deploy branch " ++ Js.toString branch
                        ++ ": " ++ Js.message error))).

End LagoonApi.

(* ===================================================================== *)
(** * [interactive.mjs]: the deletion loop of [deleteEnvironmentFlow] *)
(* ===================================================================== *)

Section Interactive.

Context {H : Host}.

(** One turn of [for (const env of selectedEnvironments)]. *)
Definition deleteEnvironmentFlow_turn (instance project : Js.value)
           (env : string) : M unit :=
  emit (SpinnerStart ("Deleting environment " ++ env ++ "...")) ;;
  try_catch
    (deleteEnvironment instance project (Js.Str env) ;;
     emit (SpinnerSucceed ("Environment " ++ env
                           ++ " deleted successfully.")))
    (fun error =>
       emit (SpinnerFail ("Failed to delete environment " ++ env ++ ": "
                          ++ Js.message error))).

(** The loop itself. *)
Fixpoint deleteEnvironmentFlow_loop (instance project : Js.value)
         (selectedEnvironments : list string) : M unit :=
  match selectedEnvironments with
  | [] => ret tt
  | env :: rest =>
      deleteEnvironmentFlow_turn instance project env ;;
      deleteEnvironmentFlow_loop instance project rest
  end.

(** [if (userConfirm) { for ... } else { console.log(...) }] *)
Definition deleteEnvironmentFlow_confirmed (instance project : Js.value)
           (selectedEnvironments : list string) (userConfirm : bool)
  : M unit :=
  if userConfirm
  then deleteEnvironmentFlow_loop instance project selectedEnvironments
  else console_log (chalk_yellow (newline ++ "Deletion cancelled.")).

End Interactive.

(* ===================================================================== *)
(** * Observations on a run *)
(* ===================================================================== *)

(** The processes a run started: executable and argument vector. *)
Fixpoint spawned (evs : list Event) : list (string * list string) :=
  match evs with
  | [] => []
  | Spawn file argv :: rest => (file, argv) :: spawned rest
  | _ :: rest => spawned rest
  end.

(** A piece of program that starts no process. *)
Definition quiet {H : Host} {A} (m : M A) : Prop :=
  forall w, spawned (events (m w)) = [].

(** A command object that answers [toString()] with [display] and is
    otherwise [C]'s. *)
Definition with_display {C} `{Command C} (display : C -> string)
  : Command C :=
  {| getBaseCommand := getBaseCommand;
     getArgs := getArgs;
     toString := display |}.

Definition has_logAction {H : Host} (logger : option Logger) : bool :=
  match logger with
  | Some l => match logAction l with Some _ => true | None => false end
  | None => false
  end.

Definition has_logError {H : Host} (logger : option Logger) : bool :=
  match logger with
  | Some l => match logError l with Some _ => true | None => false end
  | None => false
  end.

(** The logger method the executor reaches for after a spawn that ended
    with [r] is not there. *)
Definition logging_unavailable {H : Host} (logger : option Logger)
           (r : Js.error + ExecResult) : bool :=
  match r with
  | inl _ => negb (has_logError logger)
  | inr _ => negb (has_logAction logger)
  end.

(** The value-taking configurators of [LagoonCommand]. *)
Definition value_configurators
  : list (Js.value -> LagoonCommand.t -> LagoonCommand.t) :=
  [ LagoonCommand.withInstance; LagoonCommand.withProject;
    LagoonCommand.withEnvironment; LagoonCommand.deleteEnvironment;
    LagoonCommand.deployBranch; LagoonCommand.ssh ].

(** The deletion policy in the words of the specification: the name is
    "production", "master" or "develop", or starts with "project/". *)
Definition isDeletionProtected (name : string) : bool :=
  (name =? "production") || (name =? "master") || (name =? "develop")
  || String.prefix "project/" name.

(** The login-link policy in the words of the specification. *)
Definition isLoginLinkProtected (name : string) : bool :=
  (name =? "production") || (name =? "master").

(** The characters of the class [[A-Za-z0-9_./-]], written out. *)
Definition branch_class : list ascii :=
  list_ascii_of_string
    "ABCDEFGHIJKLMNOPQRSTUVWXYZabcdefghijklmnopqrstuvwxyz0123456789_./-".

(** The reports of the deletion loop, in order: the environment and
    whether its deletion was reported as a success. *)
Fixpoint reports (evs : list Event) : list (string * bool) :=
  match evs with
  | [] => []
  | SpinnerSucceed text :: rest => (text, true) :: reports rest
  | SpinnerFail text :: rest => (text, false) :: reports rest
  | _ :: rest => reports rest
  end.

(** The attempts of the deletion loop, in order. *)
Fixpoint attempts (evs : list Event) : list string :=
  match evs with
  | [] => []
  | SpinnerStart text :: rest => text :: attempts rest
  | _ :: rest => attempts rest
  end.

(** Events that are not spinner calls. *)
Definition backstage (ev : Event) : bool :=
  match ev with
  | SpinnerStart _ | SpinnerSucceed _ | SpinnerFail _ => false
  | _ => true
  end.

(** A piece of program that leaves the spinner alone. *)
Definition offstage {H : Host} {A} (m : M A) : Prop :=
  forall w, forallb backstage (events (m w)) = true.

(** What the deletion loop tells the user about one environment, given how
    its [deleteEnvironment] call completed. *)
Definition report_of (env : string) (completion : Js.error + bool)
  : string * bool :=
  match completion with
  | inr _ => ("Environment " ++ env ++ " deleted successfully.", true)
  | inl error =>
      ("Failed to delete environment " ++ env ++ ": " ++ Js.message error,
       false)
  end.

(** The spinner call that makes this report. *)
Definition report_event (env : string) (completion : Js.error + bool)
  : Event :=
  if snd (report_of env completion)
  then SpinnerSucceed (fst (report_of env completion))
  else SpinnerFail (fst (report_of env completion)).

(** The completions of the [deleteEnvironment] calls made one after the
    other, each from the world the previous one left. *)
Fixpoint deletions {H : Host} (instance project : Js.value)
         (selected : list string) (w : World)
  : list (string * (Js.error + bool)) :=
  match selected with
  | [] => []
  | env :: rest =>
      let o := deleteEnvironment instance project (Js.Str env) w in
      (env, result o) :: deletions instance project rest (final o)
  end.

(** The calls of the deletion loop laid end to end: for each environment
    the spinner start, the calls of its [deleteEnvironment], its report. *)
Fixpoint turns {H : Host} (instance project : Js.value)
         (selected : list string) (w : World) : list Event :=
  match selected with
  | [] => []
  | env :: rest =>
      let o := deleteEnvironment instance project (Js.Str env) w in
      (SpinnerStart ("Deleting environment " ++ env ++ "...")
       :: events o
       ++ report_event env (result o)
       :: turns instance project rest (final o))%list
  end.

(** The processes the [deleteEnvironment] calls of [deletions] start. *)
Fixpoint deletion_spawns {H : Host} (instance project : Js.value)
         (selected : list string) (w : World)
  : list (string * list string) :=
  match selected with
  | [] => []
  | env :: rest =>
      let o := deleteEnvironment instance project (Js.Str env) w in
      (spawned (events o)
       ++ deletion_spawns instance project rest (final o))%list
  end.

(* ===================================================================== *)
(** * A scripted host, to run the model on concrete inputs *)
(* ===================================================================== *)

Module Scripted.

(** The world is the list of completions the next spawned processes will
    have, and the lines appended to log files so far. *)
Record world : Type := {
  script : list (Js.error + ExecResult);
  logged : list (string * string)
}.

Inductive json : Type :=
| JObject (result_field : string)
| JString (s : string)
| JUndefined.

Definition quote : string := String (ascii_of_nat 34) EmptyString.

(** Tab, line feed, vertical tab, form feed, carriage return, space. *)
Definition blank (c : ascii) : bool :=
  let n := nat_of_ascii c in ((9 <=? n)%nat && (n <=? 13)%nat) || (n =? 32)%nat.

Fixpoint trim_start (s : string) : string :=
  match s with
  | EmptyString => EmptyString
  | String c rest => if blank c then trim_start rest else s
  end.

Fixpoint trim_end (s : string) : string :=
  match s with
  | EmptyString => EmptyString
  | String c rest =>
      match trim_end rest with
      | EmptyString => if blank c then EmptyString else String c EmptyString
      | kept => String c kept
      end
  end.

Definition trim (s : string) : string := trim_end (trim_start s).

Definition render (j : json) : string :=
  match j with
  | JObject r => "{" ++ quote ++ "result" ++ quote ++ ":" ++ quote ++ r
                 ++ quote ++ "}"
  | JString s => quote ++ s ++ quote
  | JUndefined => "undefined"
  end.

(** Only the two documented responses are understood. *)
Definition parse (s : string) : Js.error + json :=
  if s =? render (JObject "success") then inr (JObject "success")
  else if s =? render (JObject "error") then inr (JObject "error")
  else inl (Js.Error "Unexpected token in JSON").

Definition get (j : json) (name : string) : Js.error + json :=
  match j with
  | JObject r => if name =? "result" then inr (JString r) else inr JUndefined
  | _ => inr JUndefined
  end.

Definition exec (file : string) (argv : list string) (w : world)
  : (Js.error + ExecResult) * world :=
  match script w with
  | [] => (inl (Js.Error ("spawn " ++ file ++ " ENOENT")), w)
  | r :: rest => (r, {| script := rest; logged := logged w |})
  end.

Definition append (path data : string) (w : world)
  : option Js.error * world :=
  (None, {| script := script w; logged := (logged w ++ [(path, data)])%list |}).

#[export] Instance host : Host := {
  World := world;
  os_execFile := exec;
  chalk_blue := fun s => s;
  chalk_bold := fun s => s;
  chalk_green := fun s => s;
  chalk_yellow := fun s => s;
  Json := json;
  JSON_parse := parse;
  JSON_stringify := render;
  Json_get := get;
  Json_strictEq := fun j lit =>
                     match j with JString s => s =? lit | _ => false end;
  Json_truthy := fun j =>
                   match j with
                   | JObject _ => true
                   | JString s => negb (s =? "")
                   | JUndefined => false
                   end;
  Json_toString := fun j =>
                     match j with
                     | JObject _ => "[object Object]"
                     | JString s => s
                     | JUndefined => "undefined"
                     end;
  String_trim := trim;
  Date_toISOString := fun w => ("2025-05-17T09:30:00.000Z", w);
  fs_appendFileSync := append;
  path_join := fun a b => a ++ "/" ++ b;
  LOG_DIR := "/app/.logs"
}.

Definition ok (out : string) : Js.error + ExecResult :=
  inr {| stdout := out; stderr := "" |}.

Definition failed (msg : string) : Js.error + ExecResult :=
  inl (Js.Error msg).

Definition start (s : list (Js.error + ExecResult)) : @World host :=
  {| script := s; logged := [] |}.

(** A logger whose [logError] is there and returns normally. *)
Definition quiet_logger : Logger :=
  {| logAction := Some (fun _ _ _ w => (None, w));
     logError := Some (fun _ _ _ w => (None, w)) |}.

End Scripted.

Unset Implicit Arguments.

(* ===================================================================== *)
(** * More of [lagoon-api.mjs] *)
(* ===================================================================== *)

(** [\d]: an ASCII digit. *)
Definition digit (c : ascii) : bool :=
  let n := nat_of_ascii c in (48 <=? n)%nat && (n <=? 57)%nat.

(** A letter of a pattern under the [i] flag: the letter in either case. *)
Definition either_case (lower upper c : ascii) : bool :=
  Ascii.eqb c lower || Ascii.eqb c upper.

(** [extractPrNumber(environmentName)]: [/^pr-(\d+)$/i], the digits
    captured; [None] is the [null] it returns. *)
Definition extractPrNumber (environmentName : Js.value) : option string :=
  if negb (Js.truthy environmentName) then None
  else
    match Js.toString environmentName with
    | String p (String r (String dash (String d digits))) =>
        if either_case "p" "P" p && either_case "r" "R" r
           && Ascii.eqb dash "-" && all_chars digit (String d digits)
        then Some (String d digits)
        else None
    | _ => None
    end.

(** [s.split(sep)] for a one-character separator; never the empty
    array. *)
Fixpoint split_on (sep : ascii) (s : string) : list string :=
  match s with
  | EmptyString => [EmptyString]
  | String c rest =>
      if Ascii.eqb c sep then EmptyString :: split_on sep rest
      else match split_on sep rest with
           | [] => [String c EmptyString]
           | piece :: pieces => String c piece :: pieces
           end
  end.

Definition line_feed : ascii := ascii_of_nat 10.

Definition carriage_return : ascii := ascii_of_nat 13.

(** U+2028 and U+2029 as the process output spells them (UTF-8). *)
Definition line_separator : string :=
  String (ascii_of_nat 226)
         (String (ascii_of_nat 128) (String (ascii_of_nat 168) EmptyString)).

Definition paragraph_separator : string :=
  String (ascii_of_nat 226)
         (String (ascii_of_nat 128) (String (ascii_of_nat 169) EmptyString)).

(** [.*] reaches the end of [s]: no line terminator in it. *)
Fixpoint dot_star_to_end (s : string) : bool :=
  match s with
  | EmptyString => true
  | String c rest =>
      if Ascii.eqb c line_feed || Ascii.eqb c carriage_return
         || String.prefix line_separator s
         || String.prefix paragraph_separator s
      then false
      else dot_star_to_end rest
  end.

(** [line.match(/refs\/heads\/(.+)$/)], the capture: the pattern is tried
    from each position in turn, and at a position it matches when
    [refs/heads/] is there and what follows, to the end, is one or more
    characters none of which ends a line. *)
Fixpoint match_refs_heads (line : string) : option string :=
  let here :=
    if String.prefix "refs/heads/" line
    then match Js.drop 11 line with
         | EmptyString => None
         | rest => if dot_star_to_end rest then Some rest else None
         end
    else None in
  match here with
  | Some branch => Some branch
  | None =>
      match line with
      | EmptyString => None
      | String _ rest => match_refs_heads rest
      end
  end.

(** [xs.map(f).filter(x => x !== null)] *)
Fixpoint map_keep {A B} (f : A -> option B) (xs : list A) : list B :=
  match xs with
  | [] => []
  | x :: rest =>
      match f x with
      | Some y => y :: map_keep f rest
      | None => map_keep f rest
      end
  end.

(** [xs.map(f)] when [f] may throw: the first throw ends the call. *)
Fixpoint map_throwing {A B} (f : A -> Js.error + B) (xs : list A)
  : Js.error + list B :=
  match xs with
  | [] => inr []
  | x :: rest =>
      match f x with
      | inl e => inl e
      | inr y =>
          match map_throwing f rest with
          | inl e => inl e
          | inr ys => inr (y :: ys)
          end
      end
  end.


(** [String(n)] for a length. *)
Definition decimal (n : nat) : string :=
  NilEmpty.string_of_uint (Nat.to_uint n).

(** What the code needs of a parsed JSON value besides the reads of
    [Host]: [value.map(f)] visits the elements of an array and throws a
    [TypeError] on anything else. *)
Class HostArrays (H : Host) : Type := {
  Json_elements : Json -> Js.error + list Json
}.

Section MoreLagoonApi.

Context {H : Host}.

(** The lines of [stdout] that are not blank:
    [stdout.split('\n').filter(line => line.trim() !== '')]. *)
Definition nonblank_lines (out : string) : list string :=
  filter (fun line => negb (String_trim line =? "")) (split_on line_feed out).

(** The parsing of [getUsers]: the header line is skipped, and of each
    other line the first [|]-separated field is kept, trimmed. *)
Definition getUsers_parse (out : string) : list string :=
  map (fun line => hd "" (map String_trim (split_on "|" line)))
      (tl (nonblank_lines out)).

Definition getUsers (instance project : Js.value) : M (list string) :=
  try_catch
    (let command :=
       LagoonCommand.new
       |> LagoonCommand.withInstance instance
       |> LagoonCommand.withProject project
       |> LagoonCommand.listUsers in
     out <- execCommand command ("List Users for " ++ Js.toString project) ;;
     ret (getUsers_parse (stdout out)))
    (fun error =>
       throw (Js.Error ("Failed to get users for project "
                        ++ Js.toString project ++ ": "
                        ++ Js.message error))).

(** The command [clearDrupalCache] builds. *)
Definition clearDrupalCache_command (instance project environment : Js.value)
  : LagoonCommand.t :=
  LagoonCommand.new
  |> LagoonCommand.withInstance instance
  |> LagoonCommand.withProject project
  |> LagoonCommand.withEnvironment environment
  |> LagoonCommand.ssh (Js.Str "drush cr").

Definition clearDrupalCache (instance project environment : Js.value)
  : M string :=
  try_catch
    (let command := clearDrupalCache_command instance project environment in
     out <- execCommand command
              ("Clear Cache for " ++ Js.toString environment
               ++ " in " ++ Js.toString project) ;;
     ret (String_trim (stdout out)))
    (fun error =>
       throw (Js.Error ("Failed to clear cache for environment "
                        ++ Js.toString environment ++ ": "
                        ++ Js.message error))).

(** The parsing of [getGitBranches]. *)
Definition getGitBranches_parse (out : string) : list string :=
  map_keep match_refs_heads
           (filter (fun line => negb (String_trim line =? ""))
                   (split_on line_feed out)).

Definition getGitBranches (gitUrl : Js.value) : M (list string) :=
  try_catch
    ((if negb (Js.truthy gitUrl)
      then throw (Js.Error "Git URL not provided or invalid")
      else ret tt) ;;
     let command := GitCommand.new |> GitCommand.lsRemote gitUrl in
     console_log (chalk_blue ("Fetching branches from repository: "
                              ++ chalk_bold (Js.toString gitUrl))) ;;
     try_catch
       (out <- execCommand command
                 ("List Branches for " ++ Js.toString gitUrl) ;;
        (if negb (stderr out =? "")
         then console_log (chalk_yellow ("Warning: " ++ stderr out))
         else ret tt) ;;
        let branches := getGitBranches_parse (stdout out) in
        console_log (chalk_green ("Found " ++ decimal (List.length branches)
                                  ++ " branches in repository")) ;;
        ret branches)
       (fun error =>
          if Js.str_startsWith (Js.toString gitUrl) "git@"
             && Js.includes (Js.message error) "Permission denied"
          then throw (Js.Error ("Authentication failed for "
                                ++ Js.toString gitUrl
                                ++ ". Please check your SSH key configuration."))
          else if Js.includes (Js.message error) "not found"
          then throw (Js.Error ("Repository not found: "
                                ++ Js.toString gitUrl
                                ++ ". Please check if the URL is correct."))
          else throw error))
    (fun error =>
       logger_logError "List Branches"
                       ("git ls-remote " ++ Js.toString gitUrl) error ;;
       throw (Js.Error ("Failed to get git branches: "
                        ++ Js.message error))).

Context {HA : HostArrays H}.

(** The command of [getProjectsWithDetails] and [getProjects]. *)
Definition listProjects_command (instance : Js.value) : LagoonCommand.t :=
  LagoonCommand.new
  |> LagoonCommand.withInstance instance
  |> LagoonCommand.listProjects
  |> LagoonCommand.withJsonOutput.

Definition getProjectsWithDetails (instance : Js.value) : M Json :=
  try_catch
    (out <- execCommand (listProjects_command instance)
              ("List Projects for " ++ Js.toString instance) ;;
     projectsData <- lift (JSON_parse (stdout out)) ;;
     lift (Json_get projectsData "data"))
    (fun error =>
       throw (Js.Error ("Failed to get projects for instance "
                        ++ Js.toString instance ++ ": "
                        ++ Js.message error))).

Definition getProjects (instance : Js.value) : M (list Json) :=
  try_catch
    (out <- execCommand (listProjects_command instance)
              ("List Projects for " ++ Js.toString instance) ;;
     projectsData <- lift (JSON_parse (stdout out)) ;;
     data <- lift (Json_get projectsData "data") ;;
     projects <- lift (Json_elements data) ;;
     lift (map_throwing (fun project => Json_get project "projectname")
                        projects))
    (fun error =>
       throw (Js.Error ("Failed to get projects for instance "
                        ++ Js.toString instance ++ ": "
                        ++ Js.message error))).

(** The command of [getEnvironments]. *)
Definition listEnvironments_command (instance project : Js.value)
  : LagoonCommand.t :=
  LagoonCommand.new
  |> LagoonCommand.withInstance instance
  |> LagoonCommand.withProject project
  |> LagoonCommand.listEnvironments
  |> LagoonCommand.withJsonOutput.

Definition getEnvironments (instance project : Js.value) : M (list Json) :=
  try_catch
    (out <- execCommand (listEnvironments_command instance project)
              ("List Environments for " ++ Js.toString project) ;;
     environmentsData <- lift (JSON_parse (stdout out)) ;;
     data <- lift (Json_get environmentsData "data") ;;
     environments <- lift (Json_elements data) ;;
     lift (map_throwing (fun env => Json_get env "name") environments))
    (fun error =>
       throw (Js.Error ("Failed to get environments for project "
                        ++ Js.toString project ++ ": "
                        ++ Js.message error))).

End MoreLagoonApi.

(* ===================================================================== *)
(** * More of [interactive.mjs]: what the flows offer *)
(* ===================================================================== *)

(** [a && b] on booleans where [b] may throw and is only evaluated when
    [a] is true. *)
Definition and_also (a : bool) (b : Js.error + bool) : Js.error + bool :=
  if a then b else inr false.

(** [!b] when [b] may throw. *)
Definition not_throwing (b : Js.error + bool) : Js.error + bool :=
  match b with
  | inl e => inl e
  | inr v => inr (negb v)
  end.

(** The filter of [deleteEnvironmentFlow]:
    [env !== 'production' && env !== 'master' && env !== 'develop'
     && !env.startsWith('project/')]. *)
Definition deleteEnvironmentFlow_keeps (env : Js.value) : Js.error + bool :=
  and_also (negb (Js.strictEq env "production"))
    (and_also (negb (Js.strictEq env "master"))
       (and_also (negb (Js.strictEq env "develop"))
          (not_throwing (Js.startsWith env "project/")))).


(** The filter of [generateLoginLinkFlow]:
    [env !== 'production' && env !== 'master']. *)
Definition generateLoginLinkFlow_keeps (env : Js.value) : bool :=
  negb (Js.strictEq env "production") && negb (Js.strictEq env "master").

Definition generateLoginLinkFlow_eligible (allEnvironments : list Js.value)
  : list Js.value :=
  filter generateLoginLinkFlow_keeps allEnvironments.

(** The error [execCommand] ends with when the spawn failed with [e]: [e]
    itself once [logError] of the module has written its line, or what
    writing that line threw. *)
Definition surfaced {H : Host} (action display : string) (e : Js.error)
           (w1 : World) : Js.error :=
  match result (logger_logError action display e w1) with
  | inl thrown => thrown
  | inr _ => e
  end.

Section Outcomes.

Context {H : Host}.

(** How [execCommand] ends, given how the spawn ended: after a failed
    spawn, with what [surfaced] gives; after a successful one, with the
    output if the line for the success could be written, and otherwise
    with what writing it threw, passed through [logError] in its turn. *)
Definition execCommand_outcome (action display : string)
           (spawn : (Js.error + ExecResult) * World)
  : Js.error + ExecResult :=
  match spawn with
  | (inl e, w1) => inl (surfaced action display e w1)
  | (inr out, w1) =>
      let written := logger_logAction action display "Success" w1 in
      match result written with
      | inl thrown => inl (surfaced action display thrown (final written))
      | inr _ => inr out
      end
  end.

(** [JSON.parse(stdout).data], or the first error on the way. *)
Definition decode_data (text : string) : Js.error + Json :=
  match JSON_parse text with
  | inl e => inl e
  | inr parsed => Json_get parsed "data"
  end.

Context {HA : HostArrays H}.

(** [JSON.parse(stdout).data.map(x => x.field)], or the first error on
    the way. *)
Definition decode_fields (field text : string) : Js.error + list Json :=
  match decode_data text with
  | inl e => inl e
  | inr data =>
      match Json_elements data with
      | inl e => inl e
      | inr elements =>
          map_throwing (fun element => Json_get element field) elements
      end
  end.

End Outcomes.

(* ===================================================================== *)
(** * More of the scripted host *)
(* ===================================================================== *)

Module ScriptedMore.

(** The scripted JSON values have no arrays. *)
#[export] Instance arrays : HostArrays Scripted.host := {
  Json_elements := fun _ => inl (Js.TypeError "data.map is not a function")
}.

(** A logger whose [logAction] throws and whose [logError] returns. *)
Definition logger_without_disk : @Logger Scripted.host :=
  {| logAction :=
       Some (fun _ _ _ w => (Some (Js.Error "ENOSPC: no space left"), w));
     logError := Some (fun _ _ _ w => (None, w)) |}.

Definition success_json : string :=
  Scripted.render (Scripted.JObject "success").

(** A logger whose [logError] throws. *)
Definition logger_on_read_only_disk : @Logger Scripted.host :=
  {| logAction := Some (fun _ _ _ w => (None, w));
     logError :=
       Some (fun _ _ _ w =>
               (Some (Js.Error "EROFS: read-only file system"), w)) |}.

End ScriptedMore.

(* ===================================================================== *)
(** * Command model: properties *)
(* ===================================================================== *)

Lemma falsy_cases (v : Js.value) :
  Js.falsy v = true <-> v = Js.Str "" \/ v = Js.Null \/ v = Js.Undefined.
Proof.
  split.
  - destruct v as [| |s]; cbn; auto.
    destruct s; cbn; [auto | discriminate].
  - intros [-> | [-> | ->]]; reflexivity.
Qed.

Lemma push_if_falsy v tokens args :
  Js.falsy v = true -> push_if v tokens args = args.
Proof.
  unfold push_if, Js.falsy. intros Hf.
  destruct (Js.truthy v); [discriminate | reflexivity].
Qed.

Lemma push_value_falsy v tokens c :
  Js.falsy v = true -> LagoonCommand.push_value v tokens c = c.
Proof.
  intros Hf. unfold LagoonCommand.push_value.
  rewrite push_if_falsy by exact Hf. now destruct c.
Qed.

(** C5: the chain [withInstance('a').withProject('b').listEnvironments()
    .withJsonOutput()] read through [getArgs()] gives exactly
    [['-l','a','-p','b','list','environments','--output-json']]. *)
Theorem C5_chain_arguments :
  getArgs (LagoonCommand.new
           |> LagoonCommand.withInstance (Js.Str "a")
           |> LagoonCommand.withProject (Js.Str "b")
           |> LagoonCommand.listEnvironments
           |> LagoonCommand.withJsonOutput)
  = ["-l"; "a"; "-p"; "b"; "list"; "environments"; "--output-json"].
Proof. reflexivity. Qed.

(** C6: on a falsy value (the empty string, [null], [undefined]) every
    value-taking configurator of [LagoonCommand], and [lsRemote] of
    [GitCommand], returns the command it was given: its argument list is
    unchanged.  The configurators are total, so no error is raised. *)
Theorem C6_falsy_configurator_identity (v : Js.value) :
  v = Js.Str "" \/ v = Js.Null \/ v = Js.Undefined ->
  (forall f c, In f value_configurators ->
               f v c = c /\ getArgs (f v c) = getArgs c)
  /\ (forall g, GitCommand.lsRemote v g = g
                /\ getArgs (GitCommand.lsRemote v g) = getArgs g).
Proof.
  intros Hv. apply falsy_cases in Hv. split.
  - intros f c Hin.
    assert (Hid : f v c = c).
    { cbn in Hin.
      repeat (destruct Hin as [<- | Hin]; [now apply push_value_falsy |]).
      contradiction. }
    now rewrite Hid.
  - intros g.
    assert (Hid : GitCommand.lsRemote v g = g).
    { unfold GitCommand.lsRemote, Js.falsy in *.
      destruct (Js.truthy v); [discriminate | reflexivity]. }
    now rewrite Hid.
Qed.

Lemma C6_falsy_configurator_identity_witness :
  (Js.Null = Js.Str "" \/ Js.Null = Js.Null \/ Js.Null = Js.Undefined)
  /\ getArgs (LagoonCommand.new
              |> LagoonCommand.withInstance (Js.Str "amazee.io")
              |> LagoonCommand.deleteEnvironment Js.Null)
     = ["-l"; "amazee.io"].
Proof.
  split; [right; left; reflexivity |].
  destruct (C6_falsy_configurator_identity Js.Null) as [Hl _];
    [right; left; reflexivity |].
  destruct (Hl LagoonCommand.deleteEnvironment
               (LagoonCommand.new
                |> LagoonCommand.withInstance (Js.Str "amazee.io")))
    as [_ Hargs]; [cbn; tauto |].
  rewrite Hargs. reflexivity.
Defined.

(* ===================================================================== *)
(** * Executor: properties *)
(* ===================================================================== *)

Section ExecutorProperties.

Context {H : Host}.

(** Unfolds one call of [execute] down to the spawn and the logger calls. *)
Ltac run_execute :=
  unfold execute, bind, try_catch, console_log, emit, execFileAsync,
    guarded_logAction, guarded_logError, call_method, ret, throw;
  cbn [events result final].

Ltac split_pairs :=
  repeat match goal with
         | |- context [let (_, _) := ?p in _] => destruct p as [? ?] eqn:?
         | |- context [match ?x with inl _ => _ | inr _ => _ end] =>
             destruct x eqn:?
         | |- context [match ?x with Some _ => _ | None => _ end] =>
             destruct x eqn:?
         end; cbn [events result final fst snd app spawned] in *.

Lemma execute_spawned C {cmd : Command C} logger (command : C) action w :
  spawned (events (execute logger command action w))
  = [(getBaseCommand command, getArgs command)].
Proof.
  run_execute. split_pairs; reflexivity.
Qed.

(** C1: [execute] starts exactly one process, with the command's base
    executable name and its argument list as the argument vector, each
    argument a separate element.  Whatever the command's [toString()]
    returns, the process started is the same: the display string only
    reaches the console and the logger. *)
Theorem C1_execute_spawns_argument_vector
        C {cmd : Command C} logger (command : C) action w :
  spawned (events (execute logger command action w))
  = [(getBaseCommand command, getArgs command)]
  /\ (forall display : C -> string,
        spawned (events (@execute H C (with_display display)
                                  logger command action w))
        = [(getBaseCommand command, getArgs command)])
  /\ exists rest,
      events (execute logger command action w)
      = Console (chalk_blue ("Executing: "
                             ++ chalk_bold (toString command)))
        :: Spawn (getBaseCommand command) (getArgs command)
        :: rest
      /\ spawned rest = [].
Proof.
  split; [apply execute_spawned |].
  split; [intros display; apply (@execute_spawned C (with_display display)) |].
  run_execute. split_pairs; eexists; split; reflexivity.
Qed.

(** C4, as the code has it: when the spawn fails with [e], the executor
    never completes normally; a logger with a [logError] method gets
    exactly one call, [logError(action, command.toString(), e)], after the
    spawn, and once that call has returned without throwing the executor
    rethrows [e] itself.  When the
    method the executor would call is not there (no logger at all, or a
    logger without it) nothing is logged and the completion of [execute]
    is the completion of the spawn, on success and on failure alike. *)
Theorem C4_failure_logged_and_rethrown
        C {cmd : Command C} logger (command : C) action w r w1 :
  os_execFile (getBaseCommand command) (getArgs command) w = (r, w1) ->
  let o := execute logger command action w in
  let shown := Console (chalk_blue ("Executing: "
                                    ++ chalk_bold (toString command))) in
  let spawn := Spawn (getBaseCommand command) (getArgs command) in
  (forall e, r = inl e ->
     (exists e', result o = inl e')
     /\ (forall l f, logger = Some l -> logError l = Some f ->
           events o = [shown; spawn; LogError action (toString command) e]
           /\ final o = snd (f action (toString command) e w1)
           /\ (fst (f action (toString command) e w1) = None ->
               result o = inl e)))
  /\ (logging_unavailable logger r = true ->
      events o = [shown; spawn] /\ final o = w1 /\ result o = r).
Proof.
  intros Hspawn o shown spawn. subst o shown spawn. split.
  - intros e ->. split.
    + run_execute. rewrite Hspawn. cbn [events result final].
      split_pairs; eexists; reflexivity.
    + intros l f -> Hf. run_execute. rewrite Hspawn, Hf.
      cbn [events result final].
      destruct (f action (toString command) e w1) as [[e'|] w2];
        cbn; repeat split; try reflexivity; discriminate.
  - unfold logging_unavailable, has_logAction, has_logError.
    run_execute. rewrite Hspawn. cbn [events result final].
    destruct r as [e|out]; destruct logger as [[[fa|] [fe|]]|];
      cbn; intros Hno; try discriminate; repeat split.
Qed.

End ExecutorProperties.

Lemma C4_failure_logged_and_rethrown_witness :
  let w := Scripted.start [Scripted.failed "exit code 1"] in
  let command :=
    LagoonCommand.new |> LagoonCommand.withInstance (Js.Str "amazee.io")
                      |> LagoonCommand.listProjects in
  let o := execute (Some Scripted.quiet_logger) command "List" w in
  os_execFile "lagoon" ["-l"; "amazee.io"; "list"; "projects"] w
  = (Scripted.failed "exit code 1", Scripted.start [])
  /\ events o
     = [Console "Executing: lagoon -l amazee.io list projects";
        Spawn "lagoon" ["-l"; "amazee.io"; "list"; "projects"];
        LogError "List" "lagoon -l amazee.io list projects"
                 (Js.Error "exit code 1")]
  /\ result o = inl (Js.Error "exit code 1").
Proof.
  intros w command o.
  assert (Hspawn : os_execFile (getBaseCommand command) (getArgs command) w
                   = (Scripted.failed "exit code 1", Scripted.start []))
    by reflexivity.
  split; [exact Hspawn |].
  destruct (C4_failure_logged_and_rethrown
              _ (Some Scripted.quiet_logger) command "List" w _ _ Hspawn)
    as [Hfail _].
  destruct (Hfail (Js.Error "exit code 1") eq_refl) as [_ Hlog].
  destruct (Hlog Scripted.quiet_logger (fun _ _ _ w => (None, w))
                 eq_refl eq_refl) as [Hev [_ Hres]].
  split; [exact Hev | exact (Hres eq_refl)].
Defined.

(** C4 needs the call of [logError] to return: a [logError] that throws
    puts its own error in the place of the error of the spawn. *)
Lemma C4_throwing_logError_replaces_error :
  let w := Scripted.start [Scripted.failed "exit code 1"] in
  let command :=
    LagoonCommand.new |> LagoonCommand.withInstance (Js.Str "amazee.io")
                      |> LagoonCommand.listProjects in
  let o :=
    execute (Some ScriptedMore.logger_on_read_only_disk) command "List" w in
  os_execFile "lagoon" ["-l"; "amazee.io"; "list"; "projects"] w
  = (Scripted.failed "exit code 1", Scripted.start [])
  /\ events o
     = [Console "Executing: lagoon -l amazee.io list projects";
        Spawn "lagoon" ["-l"; "amazee.io"; "list"; "projects"];
        LogError "List" "lagoon -l amazee.io list projects"
                 (Js.Error "exit code 1")]
  /\ result o = inl (Js.Error "EROFS: read-only file system")
  /\ (result o = inl (Js.Error "exit code 1") -> False).
Proof.
  repeat split; try reflexivity.
  intros Hsame. vm_compute in Hsame. discriminate Hsame.
Qed.

(* ===================================================================== *)
(** * Runs: what they spawn *)
(* ===================================================================== *)

Section Runs.

Context {H : Host}.

Lemma spawned_app (xs ys : list Event) :
  spawned (xs ++ ys) = (spawned xs ++ spawned ys)%list.
Proof.
  induction xs as [|ev xs IH]; [reflexivity |].
  destruct ev; cbn; rewrite IH; reflexivity.
Qed.

Lemma bind_lift_inr {A B} (a : A) (k : A -> M B) w :
  bind (lift (inr a)) k w = k a w.
Proof. unfold bind, lift; cbn. now destruct (k a w). Qed.

Lemma bind_ret {A B} (a : A) (k : A -> M B) w :
  bind (ret a) k w = k a w.
Proof. unfold bind, ret; cbn. now destruct (k a w). Qed.

Lemma bind_events {A B} (m : M A) (k : A -> M B) w :
  events (bind m k w)
  = (events (m w)
     ++ match result (m w) with
        | inl _ => []
        | inr a => events (k a (final (m w)))
        end)%list.
Proof.
  unfold bind. destruct (result (m w)); cbn; [now rewrite app_nil_r | easy].
Qed.

Lemma try_catch_events {A} (m : M A) (h : Js.error -> M A) w :
  events (try_catch m h w)
  = (events (m w)
     ++ match result (m w) with
        | inl e => events (h e (final (m w)))
        | inr _ => []
        end)%list.
Proof.
  unfold try_catch. destruct (result (m w)); cbn; [easy | now rewrite app_nil_r].
Qed.

Lemma quiet_ret {A} (a : A) : quiet (ret a).
Proof. intros w; reflexivity. Qed.

Lemma quiet_throw {A} e : quiet (@throw H A e).
Proof. intros w; reflexivity. Qed.

Lemma quiet_lift {A} (r : Js.error + A) : quiet (lift r).
Proof. intros w; reflexivity. Qed.

Lemma quiet_console line : quiet (console_log line).
Proof. intros w; reflexivity. Qed.

Lemma quiet_bind {A B} (m : M A) (k : A -> M B) :
  quiet m -> (forall a, quiet (k a)) -> quiet (bind m k).
Proof.
  intros Hm Hk w. rewrite bind_events, spawned_app, Hm.
  destruct (result (m w)); [reflexivity | apply Hk].
Qed.

Lemma quiet_if {A} (b : bool) (m1 m2 : M A) :
  quiet m1 -> quiet m2 -> quiet (if b then m1 else m2).
Proof. now destruct b. Qed.

Lemma spawned_bind_quiet {A B} (m : M A) (k : A -> M B) w :
  (forall a, quiet (k a)) ->
  spawned (events (bind m k w)) = spawned (events (m w)).
Proof.
  intros Hk. rewrite bind_events, spawned_app.
  destruct (result (m w)); [| rewrite Hk]; now rewrite app_nil_r.
Qed.

Lemma spawned_try_quiet {A} (m : M A) (h : Js.error -> M A) w :
  (forall e, quiet (h e)) ->
  spawned (events (try_catch m h w)) = spawned (events (m w)).
Proof.
  intros Hh. rewrite try_catch_events, spawned_app.
  destruct (result (m w)); [rewrite Hh |]; now rewrite app_nil_r.
Qed.

Lemma execCommand_spawned C {cmd : Command C} (command : C) action w :
  spawned (events (execCommand command action w))
  = [(getBaseCommand command, getArgs command)].
Proof. apply execute_spawned. Qed.

Lemma execFileAsync_events file args w :
  events (execFileAsync file args w) = [Spawn file args].
Proof.
  unfold execFileAsync. now destruct (os_execFile file args w).
Qed.

Lemma execCommand_head C {cmd : Command C} (command : C) action w :
  exists line rest,
    events (execCommand command action w)
    = Console line :: Spawn (getBaseCommand command) (getArgs command)
              :: rest.
Proof.
  unfold execCommand, execute. rewrite bind_events.
  cbn [console_log emit events result final].
  rewrite try_catch_events, bind_events, execFileAsync_events.
  cbn [app]. eauto.
Qed.

Create HintDb quiet.

Hint Resolve quiet_ret quiet_throw quiet_lift quiet_console : quiet.
Hint Extern 2 (quiet (bind _ _)) => apply quiet_bind; [| intros ?] : quiet.
Hint Extern 2 (quiet (if _ then _ else _)) => apply quiet_if : quiet.

(** A body that starts with [execCommand] and continues quietly, under a
    quiet handler: it spawns the command and nothing else, after having
    printed it. *)
Lemma guarded_call_spawned C {cmd : Command C} A (command : C) action
      (k : ExecResult -> M A) (h : Js.error -> M A) w :
  (forall out, quiet (k out)) -> (forall e, quiet (h e)) ->
  let o := try_catch (bind (execCommand command action) k) h w in
  spawned (events o) = [(getBaseCommand command, getArgs command)]
  /\ events o <> [].
Proof.
  intros Hk Hh o. subst o. split.
  - rewrite spawned_try_quiet by exact Hh.
    rewrite spawned_bind_quiet by exact Hk.
    apply execCommand_spawned.
  - rewrite try_catch_events, bind_events.
    destruct (execCommand_head _ command action w) as (line & rest & ->).
    discriminate.
Qed.

Ltac solve_quiet := intros; cbv beta; auto 20 with quiet.

Ltac use_guarded_call :=
  cbv zeta;
  match goal with
  | |- context [try_catch (bind (execCommand ?c ?a) ?k) ?h ?w] =>
      let HG := fresh "HG" in
      pose proof (guarded_call_spawned _ _ c a k h w) as HG;
      apply HG; solve_quiet
  end.

(* ===================================================================== *)
(** * Policy guards and the operations behind them *)
(* ===================================================================== *)

Lemma prefix_app (p s : string) :
  String.prefix p s = true -> exists rest, s = p ++ rest.
Proof.
  revert s. induction p as [|a p IH]; intros s.
  - intros _. exists s. reflexivity.
  - destruct s as [|b s]; cbn; [discriminate |].
    destruct (ascii_dec a b) as [<- |]; [| discriminate].
    intros Hp. destruct (IH s Hp) as [rest ->]. eauto.
Qed.

Lemma deleteEnvironment_protected_str (name : string) :
  deleteEnvironment_protected (Js.Str name) = inr (isDeletionProtected name).
Proof.
  unfold deleteEnvironment_protected, isDeletionProtected, or_else,
    Js.startsWith, Js.str_startsWith, Js.strictEq.
  destruct (name =? "production"), (name =? "master"), (name =? "develop");
    reflexivity.
Qed.

Lemma deleteEnvironment_protected_nullish (v : Js.value) :
  v = Js.Null \/ v = Js.Undefined ->
  exists msg, deleteEnvironment_protected v = inl (Js.TypeError msg).
Proof. intros [-> | ->]; cbn; eauto. Qed.

Lemma deleteEnvironment_rejects i p v w :
  deleteEnvironment_protected v = inr true ->
  deleteEnvironment i p v w
  = {| events := []; final := w;
       result := inl (Js.Error ("Cannot delete protected environment: "
                                ++ Js.toString v)) |}.
Proof.
  intros Hp. unfold deleteEnvironment. rewrite Hp, bind_lift_inr.
  reflexivity.
Qed.

Lemma deleteEnvironment_throws i p v e w :
  deleteEnvironment_protected v = inl e ->
  deleteEnvironment i p v w
  = {| events := []; final := w; result := inl e |}.
Proof.
  intros Hp. unfold deleteEnvironment. rewrite Hp. reflexivity.
Qed.

Lemma deleteEnvironment_proceeds i p v w :
  deleteEnvironment_protected v = inr false ->
  spawned (events (deleteEnvironment i p v w))
  = [("lagoon", getArgs (deleteEnvironment_command i p v))]
  /\ events (deleteEnvironment i p v w) <> [].
Proof.
  intros Hp. unfold deleteEnvironment. rewrite Hp, bind_lift_inr.
  use_guarded_call.
Qed.

Lemma generateLoginLink_proceeds i p v w :
  generateLoginLink_protected v = false ->
  spawned (events (generateLoginLink i p v w))
  = [("lagoon", getArgs (generateLoginLink_command i p v))]
  /\ events (generateLoginLink i p v w) <> [].
Proof.
  intros Hp. unfold generateLoginLink. rewrite Hp.
  use_guarded_call.
Qed.

Lemma generateLoginLink_protected_iff (v : Js.value) :
  generateLoginLink_protected v = true
  <-> v = Js.Str "production" \/ v = Js.Str "master".
Proof.
  unfold generateLoginLink_protected. rewrite orb_true_iff.
  destruct v as [| |s]; cbn.
  - split; [intros [?|?]; discriminate | intros [?|?]; discriminate].
  - split; [intros [?|?]; discriminate | intros [?|?]; discriminate].
  - rewrite !String.eqb_eq.
    split; (intros [Hs | Hs]; [left | right]); congruence.
Qed.

(** On [null] and [undefined] the protection test itself throws, and
    [deleteEnvironment] ends there: nothing is spawned. *)
Lemma deleteEnvironment_nullish i p (v : Js.value) w :
  v = Js.Null \/ v = Js.Undefined ->
  exists msg,
    deleteEnvironment_protected v = inl (Js.TypeError msg)
    /\ deleteEnvironment i p v w
       = {| events := []; final := w; result := inl (Js.TypeError msg) |}.
Proof.
  intros Hv. destruct (deleteEnvironment_protected_nullish v Hv) as [msg Hmsg].
  exists msg. split; [exact Hmsg |].
  exact (deleteEnvironment_throws i p v _ w Hmsg).
Qed.

(** C2, as the code has it: on every string (the empty one included) the
    protection test of [deleteEnvironment] completes without throwing, with
    the value the policy gives; [deleteEnvironment] throws its
    protected-environment error, with nothing printed, logged or spawned
    and the world untouched, exactly when the name is "production",
    "master" or "develop" or starts with "project/"; on any other string it
    goes on to spawn the delete command. *)
Theorem C2_deletion_guard_on_names i p (name : string) w :
  let o := deleteEnvironment i p (Js.Str name) w in
  deleteEnvironment_protected (Js.Str name) = inr (isDeletionProtected name)
  /\ ((result o = inl (Js.Error ("Cannot delete protected environment: "
                                 ++ name))
       /\ events o = [] /\ final o = w)
      <-> isDeletionProtected name = true)
  /\ (isDeletionProtected name = false ->
      spawned (events o)
      = [("lagoon", getArgs (deleteEnvironment_command i p (Js.Str name)))]).
Proof.
  intros o. subst o.
  pose proof (deleteEnvironment_protected_str name) as Hg.
  split; [exact Hg |]. split.
  - destruct (isDeletionProtected name) eqn:Hp.
    + rewrite (deleteEnvironment_rejects i p _ w Hg). cbn. tauto.
    + destruct (deleteEnvironment_proceeds i p _ w Hg) as [_ Hne].
      split; [intros (_ & Hev & _); contradiction | discriminate].
  - intros Hp. rewrite Hp in Hg.
    now destruct (deleteEnvironment_proceeds i p _ w Hg).
Qed.

(** C7: [generateLoginLink] throws its protected-environment error, before
    anything is printed or spawned, exactly when the environment is
    "production" or "master".  Every value it refuses is refused by
    [deleteEnvironment] too, but not conversely: "develop" and every name
    starting with "project/" pass the login-link test, so a login command
    is spawned for them, while the deletion test refuses them. *)
Theorem C7_login_link_guard_narrower i p (v : Js.value) w :
  let o := generateLoginLink i p v w in
  ((result o
    = inl (Js.Error ("Cannot generate login link for protected environment: "
                     ++ Js.toString v))
    /\ events o = [] /\ final o = w)
   <-> (v = Js.Str "production" \/ v = Js.Str "master"))
  /\ (generateLoginLink_protected v = true ->
      deleteEnvironment_protected v = inr true)
  /\ (forall name,
        name = "develop" \/ Js.str_startsWith name "project/" = true ->
        generateLoginLink_protected (Js.Str name) = false
        /\ deleteEnvironment_protected (Js.Str name) = inr true
        /\ spawned (events (generateLoginLink i p (Js.Str name) w))
           = [("lagoon",
               getArgs (generateLoginLink_command i p (Js.Str name)))]).
Proof.
  intros o. subst o. split; [| split].
  - rewrite <- generateLoginLink_protected_iff.
    destruct (generateLoginLink_protected v) eqn:Hp.
    + unfold generateLoginLink. rewrite Hp. cbn. tauto.
    + destruct (generateLoginLink_proceeds i p _ w Hp) as [_ Hne].
      split; [intros (_ & Hev & _); contradiction | discriminate].
  - intros Hp. apply generateLoginLink_protected_iff in Hp.
    destruct Hp as [-> | ->]; reflexivity.
  - intros name Hname.
    assert (Hl : generateLoginLink_protected (Js.Str name) = false).
    { destruct Hname as [-> | Hpre]; [reflexivity |].
      destruct (prefix_app _ _ Hpre) as [rest ->]. reflexivity. }
    split; [exact Hl |]. split.
    + rewrite deleteEnvironment_protected_str. f_equal.
      unfold isDeletionProtected. destruct Hname as [-> | Hpre]; [reflexivity |].
      unfold Js.str_startsWith in Hpre. rewrite Hpre. apply orb_true_r.
    + now destruct (generateLoginLink_proceeds i p _ w Hl).
Qed.

Lemma try_catch_body {A} (m m' : M A) (h : Js.error -> M A) w :
  m w = m' w -> try_catch m h w = try_catch m' h w.
Proof. unfold try_catch. now intros ->. Qed.

Lemma branch_char_class (c : ascii) :
  branch_char c = true <-> In c branch_class.
Proof.
  assert (Hb : branch_char c = existsb (Ascii.eqb c) branch_class).
  { destruct c as [[] [] [] [] [] [] [] []]; vm_compute; reflexivity. }
  rewrite Hb, existsb_exists. split.
  - intros (x & Hin & Heq). apply Ascii.eqb_eq in Heq. now subst.
  - intros Hin. exists c. split; [exact Hin | apply Ascii.eqb_refl].
Qed.

Lemma all_chars_Forall (q : ascii -> bool) (s : string) :
  all_chars q s = true
  <-> Forall (fun c => q c = true) (list_ascii_of_string s).
Proof.
  induction s as [|c s IH]; cbn.
  - split; [constructor | reflexivity].
  - rewrite andb_true_iff, IH. split.
    + intros [Hc Hs]. now constructor.
    + intros Hall. inversion Hall; subst. now split.
Qed.

Lemma branch_regex_test_str (branch : string) :
  branch_regex_test (Js.Str branch) = true
  <-> branch <> ""
      /\ Forall (fun c => In c branch_class) (list_ascii_of_string branch).
Proof.
  unfold branch_regex_test. cbn [Js.toString].
  destruct branch as [|c rest].
  - split; [discriminate | intros [Hne _]; now contradiction Hne].
  - change (branch_char c && all_chars branch_char rest)
      with (all_chars branch_char (String c rest)).
    rewrite all_chars_Forall. split.
    + intros Hall. split; [discriminate |].
      eapply Forall_impl; [| exact Hall].
      intros a Ha. now apply branch_char_class.
    + intros [_ Hall]. eapply Forall_impl; [| exact Hall].
      intros a Ha. now apply branch_char_class.
Qed.

Lemma deployBranch_rejects i p v w :
  branch_regex_test v = false ->
  deployBranch i p v w
  = {| events := []; final := w;
       result := inl (Js.Error ("Failed to deploy branch " ++ Js.toString v
                                ++ ": " ++ invalid_branch_message)) |}.
Proof.
  intros Hv. unfold deployBranch, try_catch, bind. rewrite Hv. reflexivity.
Qed.

Lemma deployBranch_proceeds i p v w :
  branch_regex_test v = true ->
  spawned (events (deployBranch i p v w))
  = [("lagoon", getArgs (deployBranch_command i p v))]
  /\ events (deployBranch i p v w) <> [].
Proof.
  intros Hv. unfold deployBranch. rewrite Hv. cbn [negb].
  erewrite try_catch_body by apply bind_ret.
  use_guarded_call.
Qed.

(** C3, as the code has it: [deployBranch] lets a branch name through
    exactly when the name is not empty and each of its characters is in
    [[A-Za-z0-9_./-]].  A name that passes has its deploy command spawned;
    any other is refused with nothing printed, logged or spawned and the
    world untouched, the error being the invalid-branch-name one. *)
Theorem C3_branch_guard i p (branch : string) w :
  let o := deployBranch i p (Js.Str branch) w in
  let valid :=
    branch <> ""
    /\ Forall (fun c => In c branch_class) (list_ascii_of_string branch) in
  (branch_regex_test (Js.Str branch) = true <-> valid)
  /\ (valid ->
      spawned (events o)
      = [("lagoon", getArgs (deployBranch_command i p (Js.Str branch)))]
      /\ events o <> [])
  /\ (~ valid ->
      events o = [] /\ final o = w
      /\ result o = inl (Js.Error ("Failed to deploy branch " ++ branch
                                   ++ ": " ++ invalid_branch_message))).
Proof.
  intros o valid. subst o valid.
  pose proof (branch_regex_test_str branch) as Hiff.
  split; [exact Hiff |]. split.
  - intros Hvalid. apply Hiff in Hvalid.
    exact (deployBranch_proceeds i p _ w Hvalid).
  - intros Hinvalid.
    assert (Hv : branch_regex_test (Js.Str branch) = false).
    { destruct (branch_regex_test (Js.Str branch)); [| reflexivity].
      exfalso. apply Hinvalid, Hiff. reflexivity. }
    rewrite (deployBranch_rejects i p _ w Hv). now cbn.
Qed.

(** C10: for a [null] or [undefined] branch the regular-expression test
    succeeds (it sees the text "null" or "undefined"), so no
    invalid-branch-name error is thrown; the [deployBranch] configurator
    adds nothing for such a value, so the command built is the one the chain
    gives without that step, and the process spawned gets its arguments:
    the instance and project flags and [--output-json].  A token "deploy",
    "branch" or "--branch" can only be there as the instance or project
    name. *)
Theorem C10_nullish_branch_deploys_without_verb i p (v : Js.value) w :
  v = Js.Null \/ v = Js.Undefined ->
  let o := deployBranch i p v w in
  let bare :=
    LagoonCommand.new
    |> LagoonCommand.withInstance i
    |> LagoonCommand.withProject p
    |> LagoonCommand.withJsonOutput in
  branch_regex_test v = true
  /\ deployBranch_command i p v = bare
  /\ spawned (events o) = [("lagoon", getArgs bare)]
  /\ (forall tok,
        In tok ["deploy"; "branch"; "--branch"] ->
        In tok (getArgs bare) ->
        tok = Js.toString i \/ tok = Js.toString p).
Proof.
  intros Hv o bare. subst o bare.
  assert (Htest : branch_regex_test v = true)
    by (destruct Hv as [-> | ->]; reflexivity).
  assert (Hcmd : deployBranch_command i p v
                 = (LagoonCommand.new
                    |> LagoonCommand.withInstance i
                    |> LagoonCommand.withProject p
                    |> LagoonCommand.withJsonOutput)).
  { unfold deployBranch_command, LagoonCommand.deployBranch.
    rewrite push_value_falsy; [reflexivity |].
    destruct Hv as [-> | ->]; reflexivity. }
  split; [exact Htest |]. split; [exact Hcmd |]. split.
  - rewrite <- Hcmd. now destruct (deployBranch_proceeds i p v w Htest).
  - intros tok Htok. cbn. unfold push_if.
    destruct (Js.truthy i), (Js.truthy p); cbn; intros Hin;
      repeat (destruct Hin as [<- | Hin]; auto);
      try contradiction;
      cbn in Htok; exfalso;
      repeat (destruct Htok as [Htok | Htok]; try discriminate);
      contradiction.
Qed.

(** The part of the conversion that holds: nothing for a falsy value and
    for a text without "github.com". *)
Lemma gitUrlToGithubUrl_absent (v : Js.value) :
  Js.truthy v = false \/ Js.includes (Js.toString v) "github.com" = false ->
  gitUrlToGithubUrl v = None.
Proof.
  unfold gitUrlToGithubUrl. intros [Hf | Hno]; [now rewrite Hf |].
  destruct (Js.truthy v); [| reflexivity]. cbn [negb].
  destruct (Js.str_startsWith (Js.toString v) "git@github.com:") eqn:Hssh.
  - destruct (prefix_app _ _ Hssh) as [rest Hrest].
    rewrite Hrest in Hno. discriminate Hno.
  - now rewrite Hno.
Qed.

(** C8, where the code departs from its documentation: [replace('.git', '')]
    removes the first [.git] of the text, not a trailing one.  For the SSH
    and the HTTPS address of a repository named [user.github.io] the
    [.git] inside the name is removed and the suffix stays. *)
Theorem C8_first_git_removed_not_suffix :
  gitUrlToGithubUrl (Js.Str "git@github.com:user/user.github.io.git")
  = Some "https://github.com/user/userhub.io.git"
  /\ gitUrlToGithubUrl (Js.Str "https://github.com/user/user.github.io.git")
     = Some "https://github.com/user/userhub.io.git"
  /\ gitUrlToGithubUrl (Js.Str "https://github.com/user/user.github.io")
     = Some "https://github.com/user/userhub.io".
Proof. repeat split; reflexivity. Qed.

(* ===================================================================== *)
(** * The deletion loop *)
(* ===================================================================== *)

Lemma offstage_ret {A} (a : A) : offstage (ret a).
Proof. intros w; reflexivity. Qed.

Lemma offstage_throw {A} e : offstage (@throw H A e).
Proof. intros w; reflexivity. Qed.

Lemma offstage_lift {A} (r : Js.error + A) : offstage (lift r).
Proof. intros w; reflexivity. Qed.

Lemma offstage_console line : offstage (console_log line).
Proof. intros w; reflexivity. Qed.

Lemma offstage_bind {A B} (m : M A) (k : A -> M B) :
  offstage m -> (forall a, offstage (k a)) -> offstage (bind m k).
Proof.
  intros Hm Hk w. rewrite bind_events, forallb_app, Hm.
  destruct (result (m w)); [reflexivity | apply Hk].
Qed.

Lemma offstage_try {A} (m : M A) (h : Js.error -> M A) :
  offstage m -> (forall e, offstage (h e)) -> offstage (try_catch m h).
Proof.
  intros Hm Hh w. rewrite try_catch_events, forallb_app, Hm.
  destruct (result (m w)); [apply Hh | reflexivity].
Qed.

Lemma offstage_if {A} (b : bool) (m1 m2 : M A) :
  offstage m1 -> offstage m2 -> offstage (if b then m1 else m2).
Proof. now destruct b. Qed.

Lemma offstage_execFileAsync file args : offstage (execFileAsync file args).
Proof. intros w. now rewrite execFileAsync_events. Qed.

Lemma offstage_logAction logger action command res :
  offstage (guarded_logAction logger action command res).
Proof.
  intros w. unfold guarded_logAction, call_method, ret.
  destruct logger as [[[fa|] fe]|]; cbn; try reflexivity.
  destruct (fa action command res w) as [[?|] ?]; reflexivity.
Qed.

Lemma offstage_logError logger action command e :
  offstage (guarded_logError logger action command e).
Proof.
  intros w. unfold guarded_logError, call_method, ret.
  destruct logger as [[fa [fe|]]|]; cbn; try reflexivity.
  destruct (fe action command e w) as [[?|] ?]; reflexivity.
Qed.

Create HintDb offstage.

Hint Resolve offstage_ret offstage_throw offstage_lift offstage_console
  offstage_execFileAsync offstage_logAction offstage_logError : offstage.
Hint Extern 2 (offstage (bind _ _)) =>
       apply offstage_bind; [| intros ?] : offstage.
Hint Extern 2 (offstage (try_catch _ _)) =>
       apply offstage_try; [| intros ?] : offstage.
Hint Extern 2 (offstage (if _ then _ else _)) => apply offstage_if : offstage.

Lemma offstage_execute C {cmd : Command C} logger (command : C) action :
  offstage (execute logger command action).
Proof. unfold execute. cbv zeta. auto 20 with offstage. Qed.

Lemma offstage_deleteEnvironment i p v : offstage (deleteEnvironment i p v).
Proof.
  unfold deleteEnvironment, execCommand. cbv zeta.
  apply offstage_bind; [auto with offstage |].
  intros [|]; [auto with offstage |].
  apply offstage_try; [| auto with offstage].
  apply offstage_bind; [apply offstage_execute |].
  intros out. auto 20 with offstage.
Qed.

Lemma backstage_no_reports (evs : list Event) :
  forallb backstage evs = true -> reports evs = [] /\ attempts evs = [].
Proof.
  induction evs as [|ev evs IH]; [easy |].
  cbn. rewrite andb_true_iff. intros [Hev Hevs].
  destruct ev; cbn in *; try discriminate; auto.
Qed.

Lemma reports_app (xs ys : list Event) :
  reports (xs ++ ys) = (reports xs ++ reports ys)%list.
Proof.
  induction xs as [|ev xs IH]; [reflexivity |].
  destruct ev; cbn; rewrite IH; reflexivity.
Qed.

Lemma attempts_app (xs ys : list Event) :
  attempts (xs ++ ys) = (attempts xs ++ attempts ys)%list.
Proof.
  induction xs as [|ev xs IH]; [reflexivity |].
  destruct ev; cbn; rewrite IH; reflexivity.
Qed.

(** One turn of the loop: the spinner starts, [deleteEnvironment] runs to
    completion, the spinner reports that completion, and the turn itself
    completes normally in the world the deletion left. *)
Lemma deleteEnvironmentFlow_turn_run i p env w :
  let o := deleteEnvironment i p (Js.Str env) w in
  deleteEnvironmentFlow_turn i p env w
  = {| events :=
         (SpinnerStart ("Deleting environment " ++ env ++ "...")
          :: events o
          ++ [report_event env (result o)])%list;
       final := final o;
       result := inr tt |}.
Proof.
  intros o. subst o.
  unfold deleteEnvironmentFlow_turn, try_catch, bind, emit.
  cbn [events result final].
  destruct (deleteEnvironment i p (Js.Str env) w) as [evs w1 [e|b]];
    cbn [events result final]; reflexivity.
Qed.

Lemma report_event_observed env completion :
  attempts [report_event env completion] = []
  /\ reports [report_event env completion] = [report_of env completion]
  /\ spawned [report_event env completion] = [].
Proof. destruct completion; repeat split. Qed.

Lemma deleteEnvironmentFlow_loop_cons i p env rest w :
  let t := deleteEnvironmentFlow_turn i p env w in
  let o := deleteEnvironmentFlow_loop i p rest (final t) in
  deleteEnvironmentFlow_loop i p (env :: rest) w
  = {| events := (events t ++ events o)%list;
       final := final o;
       result := result o |}.
Proof.
  cbn [deleteEnvironmentFlow_loop]. unfold bind.
  rewrite deleteEnvironmentFlow_turn_run. reflexivity.
Qed.

(** C9: the deletion loop goes through the selected environments in
    order.  Each gets its attempt and its own report, success or failure
    according to how its own [deleteEnvironment] call completed; that call
    runs from the world the previous deletion left, so a deletion has
    completed before the next one starts, and the processes spawned are
    those of the successive calls, in order.  A deletion that fails does
    not stop the loop: the loop always completes normally, with as many
    reports as environments; its calls are those of the turns laid end
    to end, nothing of one turn coming before the report of the previous. *)
Theorem C9_deletion_loop_continues i p (selected : list string) w :
  let o := deleteEnvironmentFlow_loop i p selected w in
  result o = inr tt
  /\ attempts (events o)
     = map (fun env => "Deleting environment " ++ env ++ "...") selected
  /\ reports (events o)
     = map (fun d => report_of (fst d) (snd d)) (deletions i p selected w)
  /\ map fst (deletions i p selected w) = selected
  /\ spawned (events o) = deletion_spawns i p selected w
  /\ events o = turns i p selected w.
Proof.
  cbv zeta. revert w.
  induction selected as [|env rest IH]; intros w; [now cbn |].
  rewrite deleteEnvironmentFlow_loop_cons. cbv zeta.
  rewrite deleteEnvironmentFlow_turn_run. cbn [events result final].
  destruct (IH (final (deleteEnvironment i p (Js.Str env) w)))
    as (Hres & Hatt & Hrep & Hfst & Hsp & Htr).
  destruct (backstage_no_reports
              _ (offstage_deleteEnvironment i p (Js.Str env) w))
    as [Hnr Hna].
  split; [exact Hres |].
  destruct (report_event_observed
              env (result (deleteEnvironment i p (Js.Str env) w)))
    as (Hra & Hrr & Hrs).
  cbn [map deletions deletion_spawns turns fst snd].
  rewrite !attempts_app, !reports_app, !spawned_app.
  cbn [attempts reports spawned].
  rewrite !attempts_app, !reports_app, !spawned_app.
  rewrite Hna, Hnr, Hra, Hrr, Hrs, Hatt, Hrep, Hfst, Hsp, Htr.
  cbn [app]. rewrite app_nil_r, <- app_assoc. cbn [app].
  repeat split.
Qed.

End Runs.

(** C2 does not extend to nullish names: on [null] the protection test
    throws. *)
Lemma C2_guard_throws_on_null :
  deleteEnvironment_protected Js.Null
  = inl (Js.TypeError
           "Cannot read properties of null (reading 'startsWith')")
  /\ result (deleteEnvironment (Js.Str "amazee.io") (Js.Str "shop") Js.Null
                               (Scripted.start []))
     = inl (Js.TypeError
              "Cannot read properties of null (reading 'startsWith')").
Proof. split; reflexivity. Qed.

(** C3 needs the name to be non-empty: every character of the empty name
    is in the class, and [deployBranch] refuses it. *)
Lemma C3_empty_name_refused :
  Forall (fun c => In c branch_class) (list_ascii_of_string "")
  /\ branch_regex_test (Js.Str "") = false
  /\ deployBranch (Js.Str "amazee.io") (Js.Str "shop") (Js.Str "")
                  (Scripted.start [])
     = {| events := [];
          final := Scripted.start [];
          result := inl (Js.Error ("Failed to deploy branch : "
                                   ++ invalid_branch_message)) |}.
Proof. repeat split; constructor. Qed.

Lemma C10_nullish_branch_deploys_without_verb_witness :
  (Js.Null = Js.Null \/ Js.Null = Js.Undefined)
  /\ spawned (events (deployBranch (Js.Str "amazee.io") (Js.Str "shop")
                                   Js.Null
                                   (Scripted.start [Scripted.ok "{}"])))
     = [("lagoon", ["-l"; "amazee.io"; "-p"; "shop"; "--output-json"])].
Proof.
  split; [left; reflexivity |].
  destruct (C10_nullish_branch_deploys_without_verb
              (Js.Str "amazee.io") (Js.Str "shop") Js.Null
              (Scripted.start [Scripted.ok "{}"]) (or_introl eq_refl))
    as (_ & _ & Hspawn & _).
  exact Hspawn.
Defined.

(* ===================================================================== *)
(** * Runs on the scripted host *)
(* ===================================================================== *)

(** The tests of the repository on [gitUrlToGithubUrl]. *)
Example gitUrlToGithubUrl_tests :
  gitUrlToGithubUrl (Js.Str "") = None
  /\ gitUrlToGithubUrl Js.Null = None
  /\ gitUrlToGithubUrl Js.Undefined = None
  /\ gitUrlToGithubUrl (Js.Str "git@github.com:org/repo.git")
     = Some "https://github.com/org/repo"
  /\ gitUrlToGithubUrl (Js.Str "git@github.com:user/repo.name.git")
     = Some "https://github.com/user/repo.name"
  /\ gitUrlToGithubUrl (Js.Str "https://github.com/user/repo")
     = Some "https://github.com/user/repo"
  /\ gitUrlToGithubUrl (Js.Str "https://gitlab.com/x/y.git") = None.
Proof. repeat split; reflexivity. Qed.

(** The two examples of the branch-name policy. *)
(** The deletion policy compares exactly: another case is another name. *)
Example isDeletionProtected_examples :
  map isDeletionProtected
      ["production"; "master"; "develop"; "project/anything"; "pr-12";
       "feature-x"; "Production"; "PROJECT/x"; ""]
  = [true; true; true; true; false; false; false; false; false].
Proof. reflexivity. Qed.

Example branch_regex_test_examples :
  branch_regex_test (Js.Str "feature/foo-bar.1") = true
  /\ branch_regex_test (Js.Str "feature; rm -rf /") = false.
Proof. split; reflexivity. Qed.

(** A remote command with spaces and shell operators stays one element of
    the argument vector. *)
Example generateLoginLink_argument_vector :
  spawned (events (generateLoginLink
                     (Js.Str "amazee.io") (Js.Str "shop") (Js.Str "pr-12")
                     (Scripted.start [Scripted.ok "https://shop/uli"])))
  = [("lagoon", ["-l"; "amazee.io"; "-p"; "shop"; "-e"; "pr-12";
                 "ssh"; "-C"; "drush user:unblock --uid=1 && drush uli"])].
Proof. reflexivity. Qed.

(** Deleting [['pr-1','pr-2']] when the first delete command fails and the
    second succeeds: both are attempted, one failure and one success are
    reported. *)
Example deleteEnvironmentFlow_partial_failure :
  let w := Scripted.start
             [Scripted.failed "exit code 1";
              Scripted.ok (Scripted.render (Scripted.JObject "success"))] in
  let o := deleteEnvironmentFlow_loop (Js.Str "amazee.io") (Js.Str "shop")
                                      ["pr-1"; "pr-2"] w in
  result o = inr tt
  /\ reports (events o)
     = [("Failed to delete environment pr-1: Failed to delete environment pr-1: exit code 1",
         false);
        ("Environment pr-2 deleted successfully.", true)]
  /\ spawned (events o)
     = [("lagoon", ["-l"; "amazee.io"; "-p"; "shop"; "delete"; "environment";
                    "--environment"; "pr-1"; "--force"; "--output-json"]);
        ("lagoon", ["-l"; "amazee.io"; "-p"; "shop"; "delete"; "environment";
                    "--environment"; "pr-2"; "--force"; "--output-json"])].
Proof. repeat split; vm_compute; reflexivity. Qed.

(* ===================================================================== *)
(** * Pull-request numbers *)
(* ===================================================================== *)

Lemma digit_decimal (c : ascii) :
  digit c = true <-> In c (list_ascii_of_string "0123456789").
Proof.
  assert (Hb : digit c
               = existsb (Ascii.eqb c) (list_ascii_of_string "0123456789")).
  { destruct c as [[] [] [] [] [] [] [] []]; vm_compute; reflexivity. }
  rewrite Hb, existsb_exists. split.
  - intros (x & Hin & Heq). apply Ascii.eqb_eq in Heq. now subst.
  - intros Hin. exists c. split; [exact Hin | apply Ascii.eqb_refl].
Qed.

Lemma either_case_spec (lower upper c : ascii) :
  either_case lower upper c = true <-> c = lower \/ c = upper.
Proof.
  unfold either_case. rewrite orb_true_iff, !Ascii.eqb_eq. tauto.
Qed.

Lemma all_digits_decimal (s : string) :
  all_chars digit s = true
  <-> Forall (fun c => In c (list_ascii_of_string "0123456789"))
             (list_ascii_of_string s).
Proof.
  rewrite all_chars_Forall. split; intros Hall;
    (eapply Forall_impl; [| exact Hall]); intros a Ha;
    now apply digit_decimal.
Qed.

Lemma extractPrNumber_inv (v : Js.value) (digits : string) :
  extractPrNumber v = Some digits ->
  exists p r,
    v = Js.Str (String p (String r (String "-" digits)))
    /\ (p = "p" \/ p = "P")%char
    /\ (r = "r" \/ r = "R")%char
    /\ digits <> ""
    /\ Forall (fun c => In c (list_ascii_of_string "0123456789"))
              (list_ascii_of_string digits).
Proof.
  unfold extractPrNumber.
  destruct (Js.truthy v) eqn:Ht; cbn [negb]; [| discriminate].
  destruct v as [| |s]; try discriminate. cbn [Js.toString].
  destruct s as [|p [|r [|dash [|d ds]]]]; try discriminate.
  destruct (either_case "p" "P" p) eqn:Hp; cbn [andb]; [| discriminate].
  destruct (either_case "r" "R" r) eqn:Hr; cbn [andb]; [| discriminate].
  destruct (Ascii.eqb dash "-") eqn:Hd; cbn [andb]; [| discriminate].
  destruct (all_chars digit (String d ds)) eqn:Hall; [| discriminate].
  intros [= <-]. exists p, r.
  apply Ascii.eqb_eq in Hd. subst dash.
  apply either_case_spec in Hp, Hr. apply all_digits_decimal in Hall.
  repeat split; try assumption. discriminate.
Qed.

(** X1: [extractPrNumber] answers with [digits] exactly on the names made of
    "pr" in any mix of cases, a hyphen, and [digits], one or more decimal
    digits, and nothing else; on every other value, [null], [undefined]
    and the empty string included, it answers [null]. *)
Theorem extractPrNumber_exactly (v : Js.value) (digits : string) :
  extractPrNumber v = Some digits
  <-> exists p r,
      v = Js.Str (String p (String r (String "-" digits)))
      /\ (p = "p" \/ p = "P")%char
      /\ (r = "r" \/ r = "R")%char
      /\ digits <> ""
      /\ Forall (fun c => In c (list_ascii_of_string "0123456789"))
                (list_ascii_of_string digits).
Proof.
  split; [apply extractPrNumber_inv |].
  intros (p & r & -> & Hp & Hr & Hne & Hall).
  destruct digits as [|d ds]; [now contradiction Hne |].
  apply either_case_spec in Hp, Hr. apply all_digits_decimal in Hall.
  unfold extractPrNumber. cbn [Js.truthy Js.toString String.eqb negb].
  rewrite Hp, Hr, Hall. reflexivity.
Qed.

(* ===================================================================== *)
(** * Builders: what a step does to the arguments already there *)
(* ===================================================================== *)

(** X2: Every step of the [LagoonCommand] builder keeps the executable name
    and only appends: the arguments already there stay, in place, as a
    prefix of the new argument list. *)
Theorem LagoonCommand_steps_append (v : Js.value) (c : LagoonCommand.t) :
  Forall (fun step : LagoonCommand.t -> LagoonCommand.t =>
            getBaseCommand (step c) = getBaseCommand c
            /\ exists tokens, getArgs (step c) = (getArgs c ++ tokens)%list)
         [ LagoonCommand.withInstance v; LagoonCommand.withProject v;
           LagoonCommand.withEnvironment v; LagoonCommand.withJsonOutput;
           LagoonCommand.withForce; LagoonCommand.listConfigs;
           LagoonCommand.listProjects; LagoonCommand.listEnvironments;
           LagoonCommand.listUsers; LagoonCommand.deleteEnvironment v;
           LagoonCommand.deployBranch v; LagoonCommand.login;
           LagoonCommand.ssh v ].
Proof.
  repeat constructor; cbn; unfold push_if;
    try (destruct (Js.truthy v); eexists;
         [reflexivity | symmetry; apply app_nil_r]);
    eexists; reflexivity.
Qed.

(** X3: [lsRemote] of [GitCommand] does not append, it replaces: with a
    truthy address the argument list is the three tokens of this call
    whatever the command held, so of two calls only the later address
    remains; a falsy address leaves the earlier one. *)
Theorem GitCommand_lsRemote_replaces (url : Js.value) (c : GitCommand.t) :
  Js.truthy url = true ->
  getArgs (GitCommand.lsRemote url c)
  = ["ls-remote"; "--heads"; Js.toString url]
  /\ (forall earlier,
        GitCommand.lsRemote url (GitCommand.lsRemote earlier c)
        = GitCommand.lsRemote url c)
  /\ (forall later,
        Js.truthy later = false ->
        GitCommand.lsRemote later (GitCommand.lsRemote url c)
        = GitCommand.lsRemote url c).
Proof.
  intros Hu. unfold GitCommand.lsRemote. rewrite Hu. cbn.
  split; [reflexivity |]. split.
  - intros earlier. now destruct (Js.truthy earlier).
  - intros later ->. reflexivity.
Qed.

Lemma GitCommand_lsRemote_replaces_witness :
  Js.truthy (Js.Str "git@github.com:org/b.git") = true
  /\ getArgs (GitCommand.new
              |> GitCommand.lsRemote (Js.Str "git@github.com:org/a.git")
              |> GitCommand.lsRemote (Js.Str "git@github.com:org/b.git"))
     = ["ls-remote"; "--heads"; "git@github.com:org/b.git"].
Proof.
  split; [reflexivity |].
  destruct (GitCommand_lsRemote_replaces
              (Js.Str "git@github.com:org/b.git") GitCommand.new eq_refl)
    as (Hargs & Hearlier & _).
  rewrite (Hearlier (Js.Str "git@github.com:org/a.git")). exact Hargs.
Defined.

(** X4: The display string of a command is its command array joined with
    spaces as soon as there is an argument; with no argument it is the
    executable name followed by a space. *)
Theorem toString_joins_command_array :
  (forall c : LagoonCommand.t,
      LagoonCommand.toString c
      = match getArgs c with
        | [] => getBaseCommand c ++ " "
        | _ :: _ => Js.join " " (LagoonCommand.getCommandArray c)
        end)
  /\ (forall c : GitCommand.t,
         GitCommand.toString c
         = match getArgs c with
           | [] => getBaseCommand c ++ " "
           | _ :: _ => Js.join " " (GitCommand.getCommandArray c)
           end).
Proof.
  split; intros [base [|a args]]; reflexivity.
Qed.

(* ===================================================================== *)
(** * The executor when the command succeeds *)
(* ===================================================================== *)

Section MoreRuns.

Context {H : Host}.

(** X5: When the spawn succeeds, a logger with a [logAction] method gets
    [logAction(action, command.toString(), 'Success')], and if that call
    returns the result of [execute] is the output of the process.  If the
    call throws, the output is lost: the error goes to [logError] when the
    logger has one, and [execute] fails with it (or with what [logError]
    throws in its turn). *)
Theorem execute_success_then_logAction
        C {cmd : Command C} (l : Logger) f (command : C) action w out w1 :
  os_execFile (getBaseCommand command) (getArgs command) w = (inr out, w1) ->
  logAction l = Some f ->
  let o := execute (Some l) command action w in
  let shown := Console (chalk_blue ("Executing: "
                                    ++ chalk_bold (toString command))) in
  let spawn := Spawn (getBaseCommand command) (getArgs command) in
  let logged := LogAction action (toString command) "Success" in
  let w2 := snd (f action (toString command) "Success" w1) in
  match fst (f action (toString command) "Success" w1) with
  | None =>
      events o = [shown; spawn; logged]
      /\ final o = w2 /\ result o = inr out
  | Some e =>
      match logError l with
      | None =>
          events o = [shown; spawn; logged]
          /\ final o = w2 /\ result o = inl e
      | Some g =>
          events o = [shown; spawn; logged;
                      LogError action (toString command) e]
          /\ final o = snd (g action (toString command) e w2)
          /\ result o
             = inl (match fst (g action (toString command) e w2) with
                    | Some e' => e'
                    | None => e
                    end)
      end
  end.
Proof.
  intros Hspawn Hf. cbv zeta.
  unfold execute, bind, try_catch, console_log, emit, execFileAsync,
    guarded_logAction, guarded_logError, call_method, ret, throw.
  cbn [events result final]. rewrite Hspawn, Hf. cbn [events result final].
  destruct (f action (toString command) "Success" w1) as [[e|] w2];
    cbn [events result final fst snd app]; [| now repeat split].
  destruct (logError l) as [g|]; cbn [events result final app];
    [| now repeat split].
  destruct (g action (toString command) e w2) as [[e'|] w3];
    cbn; now repeat split.
Qed.

(** How [execCommand] ends, with the logger of the module. *)
Lemma execCommand_failure C {cmd : Command C} (command : C) action w e w1 :
  os_execFile (getBaseCommand command) (getArgs command) w = (inl e, w1) ->
  let lo := logger_logError action (toString command) e w1 in
  result (execCommand command action w)
  = inl (match result lo with inl e' => e' | inr _ => e end)
  /\ final (execCommand command action w) = final lo.
Proof.
  intros Hspawn. cbv zeta.
  unfold execCommand, execute, executor_logger, bind, try_catch, console_log,
    emit, execFileAsync, guarded_logError, call_method, as_method, throw.
  cbn [events result final logError]. rewrite Hspawn.
  cbn [events result final].
  destruct (result (logger_logError action (toString command) e w1));
    cbn; split; reflexivity.
Qed.

Lemma execCommand_inr C {cmd : Command C} (command : C) action w out :
  result (execCommand command action w) = inr out ->
  exists w1,
    os_execFile (getBaseCommand command) (getArgs command) w = (inr out, w1).
Proof.
  unfold execCommand, execute, executor_logger, bind, try_catch, console_log,
    emit, execFileAsync, guarded_logAction, guarded_logError, call_method,
    as_method, throw, ret.
  cbn [events result final logAction logError].
  destruct (os_execFile (getBaseCommand command) (getArgs command) w)
    as [[e|out'] w1]; cbn [events result final].
  - destruct (result (logger_logError action (toString command) e w1));
      cbn; discriminate.
  - destruct (result (logger_logAction action (toString command) "Success"
                                       w1)) as [e|[]];
      cbn [events result final].
    + destruct (result (logger_logError action (toString command) e _));
        cbn; discriminate.
    + cbn. intros [= ->]. eauto.
Qed.

(** The body/handler shape of the functions of [lagoon-api.mjs]: a
    completion without error is one of the body, after a spawn that
    succeeded. *)
Lemma guarded_call_inr C {cmd : Command C} A (command : C) action
      (k : ExecResult -> M A) (h : Js.error -> M A) w a :
  (forall e w', exists e', result (h e w') = inl e') ->
  result (try_catch (bind (execCommand command action) k) h w) = inr a ->
  exists out w1,
    os_execFile (getBaseCommand command) (getArgs command) w = (inr out, w1)
    /\ result (k out (final (execCommand command action w))) = inr a.
Proof.
  intros Hh. unfold try_catch, bind.
  destruct (result (execCommand command action w)) as [e|out] eqn:Hexec;
    cbn [events result final].
  - destruct (Hh e (final (execCommand command action w))) as [e' ->].
    discriminate.
  - destruct (execCommand_inr _ command action w out Hexec) as [w1 Hspawn].
    destruct (result (k out (final (execCommand command action w))))
      as [e|a'] eqn:Hk; cbn [events result final].
    + destruct (Hh e (final (k out (final (execCommand command action w)))))
        as [e' ->]. discriminate.
    + intros [= ->]. eauto.
Qed.

End MoreRuns.

Lemma execute_success_then_logAction_witness :
  let w := Scripted.start [Scripted.ok "[]"] in
  let command := LagoonCommand.new |> LagoonCommand.listProjects in
  let o := execute (Some ScriptedMore.logger_without_disk) command "List" w in
  os_execFile "lagoon" ["list"; "projects"] w
  = (Scripted.ok "[]", Scripted.start [])
  /\ events o
     = [Console "Executing: lagoon list projects";
        Spawn "lagoon" ["list"; "projects"];
        LogAction "List" "lagoon list projects" "Success";
        LogError "List" "lagoon list projects"
                 (Js.Error "ENOSPC: no space left")]
  /\ result o = inl (Js.Error "ENOSPC: no space left").
Proof.
  intros w command o.
  assert (Hspawn : os_execFile (getBaseCommand command) (getArgs command) w
                   = (inr {| stdout := "[]"; stderr := "" |},
                      Scripted.start []))
    by reflexivity.
  split; [exact Hspawn |].
  pose proof (execute_success_then_logAction
                _ ScriptedMore.logger_without_disk _ command "List" w _ _
                Hspawn eq_refl) as Hrun.
  cbn in Hrun. destruct Hrun as (Hev & _ & Hres).
  split; [exact Hev | exact Hres].
Defined.

(* ===================================================================== *)
(** * What the operations of [lagoon-api.mjs] report *)
(* ===================================================================== *)

Section Reports.

Context {H : Host}.

Ltac open_body Hk :=
  unfold bind, lift, ret, throw, console_log, emit in Hk;
  cbn [events result final] in Hk.

(** X6: [deleteEnvironment] returns (and then returns [true]) only when the
    name passed the protection test, the delete command was spawned from
    the starting world and succeeded, its output parsed as JSON, and the
    [result] read from it is the text "success". *)
Theorem deleteEnvironment_true_only_on_success i p (v : Js.value) w b :
  result (deleteEnvironment i p v w) = inr b ->
  b = true
  /\ deleteEnvironment_protected v = inr false
  /\ exists out w1 response res,
      os_execFile "lagoon" (getArgs (deleteEnvironment_command i p v)) w
      = (inr out, w1)
      /\ JSON_parse (stdout out) = inr response
      /\ Json_get response "result" = inr res
      /\ Json_strictEq res "success" = true.
Proof.
  unfold deleteEnvironment.
  destruct (deleteEnvironment_protected v) as [e|[|]] eqn:Hg.
  - discriminate.
  - rewrite bind_lift_inr. discriminate.
  - rewrite bind_lift_inr. cbv zeta. intros Hrun.
    apply guarded_call_inr in Hrun; [| intros; eexists; reflexivity].
    destruct Hrun as (out & w1 & Hspawn & Hk).
    open_body Hk.
    destruct (JSON_parse (stdout out)) as [e|response] eqn:Hparse;
      cbn [events result final] in Hk; [discriminate |].
    destruct (Json_get response "result") as [e|res] eqn:Hget;
      cbn [events result final] in Hk; [discriminate |].
    destruct (Json_strictEq res "success") eqn:Hs;
      cbn [events result final] in Hk; [| discriminate].
    injection Hk as <-.
    split; [reflexivity |]. split; [reflexivity |].
    exists out, w1, response, res. auto.
Qed.

(** X7: [deployBranch] returns only when the branch passed the test, the
    deploy command was spawned from the starting world and succeeded, its
    output parsed as JSON and the [result] read from it is "success"; what
    it returns then says so and names the branch and the project. *)
Theorem deployBranch_returns_only_on_success i p (v : Js.value) w started :
  result (deployBranch i p v w) = inr started ->
  branch_regex_test v = true
  /\ started
     = {| success := true;
          message := "Branch " ++ Js.toString v ++ " is being deployed to "
                     ++ Js.toString p |}
  /\ exists out w1 response res,
      os_execFile "lagoon" (getArgs (deployBranch_command i p v)) w
      = (inr out, w1)
      /\ JSON_parse (stdout out) = inr response
      /\ Json_get response "result" = inr res
      /\ Json_strictEq res "success" = true.
Proof.
  destruct (branch_regex_test v) eqn:Hv.
  - unfold deployBranch. rewrite Hv. cbn [negb].
    erewrite try_catch_body by apply bind_ret. cbv zeta. intros Hrun.
    apply guarded_call_inr in Hrun; [| intros; eexists; reflexivity].
    destruct Hrun as (out & w1 & Hspawn & Hk).
    open_body Hk.
    destruct (JSON_parse (stdout out)) as [e|response] eqn:Hparse;
      cbn [events result final] in Hk; [discriminate |].
    destruct (Json_get response "result") as [e|res] eqn:Hget;
      cbn [events result final] in Hk; [discriminate |].
    destruct (Json_strictEq res "success") eqn:Hs;
      cbn [events result final] in Hk.
    + injection Hk as <-. split; [reflexivity |]. split; [reflexivity |].
      exists out, w1, response, res. auto.
    + destruct (Json_strictEq res "error");
        cbn [events result final] in Hk; [| discriminate].
      destruct (Json_get response "message");
        cbn [events result final] in Hk; discriminate.
  - rewrite (deployBranch_rejects i p v w Hv). discriminate.
Qed.

End Reports.

Lemma deleteEnvironment_true_only_on_success_witness :
  let w := Scripted.start [Scripted.ok ScriptedMore.success_json] in
  result (deleteEnvironment (Js.Str "amazee.io") (Js.Str "shop")
                            (Js.Str "pr-2") w)
  = inr true
  /\ deleteEnvironment_protected (Js.Str "pr-2") = inr false.
Proof.
  intros w.
  assert (Hrun : result (deleteEnvironment (Js.Str "amazee.io")
                                           (Js.Str "shop") (Js.Str "pr-2") w)
                 = inr true) by (vm_compute; reflexivity).
  destruct (deleteEnvironment_true_only_on_success _ _ _ _ _ Hrun)
    as (_ & Hg & _).
  split; [exact Hrun | exact Hg].
Defined.

Lemma deployBranch_returns_only_on_success_witness :
  let w := Scripted.start [Scripted.ok ScriptedMore.success_json] in
  result (deployBranch (Js.Str "amazee.io") (Js.Str "shop")
                       (Js.Str "feature/x") w)
  = inr {| success := true;
           message := "Branch feature/x is being deployed to shop" |}
  /\ branch_regex_test (Js.Str "feature/x") = true.
Proof.
  intros w.
  assert (Hrun : result (deployBranch (Js.Str "amazee.io") (Js.Str "shop")
                                      (Js.Str "feature/x") w)
                 = inr {| success := true;
                          message :=
                            "Branch feature/x is being deployed to shop" |})
    by (vm_compute; reflexivity).
  destruct (deployBranch_returns_only_on_success _ _ _ _ _ Hrun)
    as (Hv & _).
  split; [exact Hrun | exact Hv].
Defined.

(* ===================================================================== *)
(** * Failures keep their message *)
(* ===================================================================== *)

Section Failures.

Context {H : Host}.

Lemma guarded_call_failure C {cmd : Command C} A (command : C) action
      (k : ExecResult -> M A) (h : Js.error -> M A) w e w1 :
  os_execFile (getBaseCommand command) (getArgs command) w = (inl e, w1) ->
  result (try_catch (bind (execCommand command action) k) h w)
  = result (h (surfaced action (toString command) e w1)
              (final (logger_logError action (toString command) e w1))).
Proof.
  intros Hspawn.
  destruct (execCommand_failure _ command action w e w1 Hspawn)
    as [Hres Hfin].
  unfold try_catch, bind. rewrite Hres. cbn [events result final].
  rewrite Hfin. reflexivity.
Qed.

End Failures.

Create HintDb silent.

#[global] Hint Resolve quiet_ret quiet_throw quiet_lift quiet_console
  : silent.
#[global] Hint Extern 2 (quiet (bind _ _)) =>
  apply quiet_bind; [| intros ?] : silent.
#[global] Hint Extern 2 (quiet (if _ then _ else _)) =>
  apply quiet_if : silent.

Section FailureMessages.

Context {H : Host}.

Ltac use_failure Hspawn :=
  match goal with
  | |- context [try_catch (bind (execCommand ?c ?a) ?k) ?h ?w] =>
      match type of Hspawn with
      | _ = (inl ?e, ?w1) =>
          let Hs := fresh "Hs" in
          assert (Hs : os_execFile (getBaseCommand c) (getArgs c) w
                       = (inl e, w1)) by exact Hspawn;
          rewrite (guarded_call_failure _ _ c a k h w e w1 Hs)
      end
  end; reflexivity.

Lemma clearDrupalCache_spawned i p v w :
  spawned (events (clearDrupalCache i p v w))
  = [("lagoon", getArgs (clearDrupalCache_command i p v))]
  /\ events (clearDrupalCache i p v w) <> [].
Proof.
  unfold clearDrupalCache. cbv zeta.
  match goal with
  | |- context [try_catch (bind (execCommand ?c ?a) ?k) ?h ?w] =>
      pose proof (guarded_call_spawned _ _ c a k h w) as HG
  end.
  apply HG; intros; cbv beta; auto 20 with silent.
Qed.

(** X8: When the process of an operation fails with [e], the operation fails
    with an [Error] whose message is the operation's own prefix followed
    by the message of [e], as long as the log line for the failure could
    be written (otherwise by the message of what writing it threw).  This
    holds for [deleteEnvironment] and [generateLoginLink] on a name that
    passed their test, for [clearDrupalCache], and for [deployBranch] on a
    branch that passed its test. *)
Theorem failures_keep_their_message i p (v : Js.value) w e w1 :
  (forall action display,
      result (logger_logError action display e w1) = inr tt ->
      surfaced action display e w1 = e)
  /\ (deleteEnvironment_protected v = inr false ->
      os_execFile "lagoon" (getArgs (deleteEnvironment_command i p v)) w
      = (inl e, w1) ->
      result (deleteEnvironment i p v w)
      = inl (Js.Error
               ("Failed to delete environment " ++ Js.toString v ++ ": "
                ++ Js.message
                     (surfaced ("Delete Environment " ++ Js.toString v
                                ++ " from " ++ Js.toString p)
                               (toString (deleteEnvironment_command i p v))
                               e w1))))
  /\ (generateLoginLink_protected v = false ->
      os_execFile "lagoon" (getArgs (generateLoginLink_command i p v)) w
      = (inl e, w1) ->
      result (generateLoginLink i p v w)
      = inl (Js.Error
               ("Failed to generate login link for environment "
                ++ Js.toString v ++ ": "
                ++ Js.message
                     (surfaced ("Generate Login Link for " ++ Js.toString v
                                ++ " in " ++ Js.toString p)
                               (toString (generateLoginLink_command i p v))
                               e w1))))
  /\ (os_execFile "lagoon" (getArgs (clearDrupalCache_command i p v)) w
      = (inl e, w1) ->
      result (clearDrupalCache i p v w)
      = inl (Js.Error
               ("Failed to clear cache for environment "
                ++ Js.toString v ++ ": "
                ++ Js.message
                     (surfaced ("Clear Cache for " ++ Js.toString v
                                ++ " in " ++ Js.toString p)
                               (toString (clearDrupalCache_command i p v))
                               e w1))))
  /\ (branch_regex_test v = true ->
      os_execFile "lagoon" (getArgs (deployBranch_command i p v)) w
      = (inl e, w1) ->
      result (deployBranch i p v w)
      = inl (Js.Error
               ("Failed to deploy branch " ++ Js.toString v ++ ": "
                ++ Js.message
                     (surfaced ("Deploy Branch " ++ Js.toString v
                                ++ " to " ++ Js.toString p)
                               (toString (deployBranch_command i p v))
                               e w1)))).
Proof.
  split; [| split; [| split; [| split]]].
  - intros action display Hlog. unfold surfaced. now rewrite Hlog.
  - intros Hg Hspawn. unfold deleteEnvironment.
    rewrite Hg, bind_lift_inr. cbv zeta.
    use_failure Hspawn.
  - intros Hg Hspawn. unfold generateLoginLink. rewrite Hg. cbv zeta.
    use_failure Hspawn.
  - intros Hspawn. unfold clearDrupalCache. cbv zeta.
    use_failure Hspawn.
  - intros Hv Hspawn. unfold deployBranch. rewrite Hv. cbn [negb].
    erewrite try_catch_body by apply bind_ret. cbv zeta.
    use_failure Hspawn.
Qed.

End FailureMessages.

Lemma failures_keep_their_message_witness :
  let w := Scripted.start [Scripted.failed "exit code 1"] in
  deleteEnvironment_protected (Js.Str "pr-1") = inr false
  /\ os_execFile "lagoon"
                 ["-l"; "amazee.io"; "-p"; "shop"; "delete"; "environment";
                  "--environment"; "pr-1"; "--force"; "--output-json"] w
     = (Scripted.failed "exit code 1", Scripted.start [])
  /\ result (deleteEnvironment (Js.Str "amazee.io") (Js.Str "shop")
                               (Js.Str "pr-1") w)
     = inl (Js.Error "Failed to delete environment pr-1: exit code 1").
Proof.
  intros w.
  split; [reflexivity |]. split; [reflexivity |].
  destruct (failures_keep_their_message
              (Js.Str "amazee.io") (Js.Str "shop") (Js.Str "pr-1") w
              (Js.Error "exit code 1") (Scripted.start []))
    as (Hwritten & Hdelete & _).
  rewrite (Hdelete eq_refl eq_refl).
  rewrite (Hwritten _ _ eq_refl). reflexivity.
Defined.

(* ===================================================================== *)
(** * What is spawned, and for which names *)
(* ===================================================================== *)

Section Spawns.

Context {H : Host}.

(** X9: With the empty string as environment name the three operations on an
    environment still spawn a command, and it does not name an
    environment: [deleteEnvironment] runs the CLI with [--force] and no
    [delete] verb, [generateLoginLink] and [clearDrupalCache] run their
    remote command with no [-e] flag. *)
Theorem empty_environment_name_still_spawns i p w :
  spawned (events (deleteEnvironment i p (Js.Str "") w))
  = [("lagoon",
      getArgs (LagoonCommand.new
               |> LagoonCommand.withInstance i
               |> LagoonCommand.withProject p
               |> LagoonCommand.withForce
               |> LagoonCommand.withJsonOutput))]
  /\ spawned (events (generateLoginLink i p (Js.Str "") w))
     = [("lagoon",
         getArgs (LagoonCommand.new
                  |> LagoonCommand.withInstance i
                  |> LagoonCommand.withProject p
                  |> LagoonCommand.ssh
                       (Js.Str "drush user:unblock --uid=1 && drush uli")))]
  /\ spawned (events (clearDrupalCache i p (Js.Str "") w))
     = [("lagoon",
         getArgs (LagoonCommand.new
                  |> LagoonCommand.withInstance i
                  |> LagoonCommand.withProject p
                  |> LagoonCommand.ssh (Js.Str "drush cr")))].
Proof.
  split; [| split].
  - now destruct (deleteEnvironment_proceeds i p (Js.Str "") w eq_refl).
  - now destruct (generateLoginLink_proceeds i p (Js.Str "") w eq_refl).
  - now destruct (clearDrupalCache_spawned i p (Js.Str "") w).
Qed.

(** X10: [clearDrupalCache] has no protected names: for every environment
    value, "production" and "master" included, it prints and spawns its
    one command, the cache rebuild on that environment, the remote command
    being a single argument; "production" is a name [generateLoginLink]
    refuses. *)
Theorem clearDrupalCache_spawns_for_every_name i p (v : Js.value) w :
  spawned (events (clearDrupalCache i p v w))
  = [("lagoon", getArgs (clearDrupalCache_command i p v))]
  /\ events (clearDrupalCache i p v w) <> []
  /\ (Js.truthy v = true ->
      getArgs (clearDrupalCache_command i p v)
      = (getArgs (LagoonCommand.new
                  |> LagoonCommand.withInstance i
                  |> LagoonCommand.withProject p)
         ++ ["-e"; Js.toString v; "ssh"; "-C"; "drush cr"])%list)
  /\ generateLoginLink_protected (Js.Str "production") = true.
Proof.
  destruct (clearDrupalCache_spawned i p v w) as [Hs Hne].
  split; [exact Hs |]. split; [exact Hne |]. split; [| reflexivity].
  intros Hv. cbn. unfold push_if at 1. rewrite Hv.
  now rewrite <- app_assoc.
Qed.

Lemma deleteEnvironment_spawned_cases i p (v : Js.value) w :
  spawned (events (deleteEnvironment i p v w))
  = match deleteEnvironment_protected v with
    | inr false => [("lagoon", getArgs (deleteEnvironment_command i p v))]
    | _ => []
    end.
Proof.
  destruct (deleteEnvironment_protected v) as [e|[|]] eqn:Hg.
  - now rewrite (deleteEnvironment_throws i p v e w Hg).
  - now rewrite (deleteEnvironment_rejects i p v w Hg).
  - now destruct (deleteEnvironment_proceeds i p v w Hg).
Qed.

(** X11: Whatever list the deletion loop is given, each process it spawns is
    the delete command of a listed environment whose name is not
    protected: for a protected name in the list nothing is spawned. *)
Theorem deletion_loop_spares_protected i p (selected : list string) w :
  Forall (fun sp =>
            exists env,
              In env selected
              /\ isDeletionProtected env = false
              /\ sp = ("lagoon",
                       getArgs (deleteEnvironment_command i p (Js.Str env))))
         (spawned (events (deleteEnvironmentFlow_loop i p selected w))).
Proof.
  revert w. induction selected as [|env rest IH]; intros w; [constructor |].
  rewrite deleteEnvironmentFlow_loop_cons. cbv zeta.
  rewrite deleteEnvironmentFlow_turn_run. cbn [events result final].
  rewrite spawned_app. cbn [spawned]. rewrite spawned_app.
  destruct (report_event_observed
              env (result (deleteEnvironment i p (Js.Str env) w)))
    as (_ & _ & ->).
  rewrite app_nil_r, deleteEnvironment_spawned_cases,
    deleteEnvironment_protected_str.
  apply Forall_app. split.
  - destruct (isDeletionProtected env) eqn:Hp; constructor; [| constructor].
    exists env. repeat split; [now left | exact Hp].
  - eapply Forall_impl; [| apply IH].
    intros sp (env' & Hin & Hp & ->). exists env'.
    repeat split; [now right | exact Hp].
Qed.

End Spawns.

(* ===================================================================== *)
(** * Remote branches *)
(* ===================================================================== *)

Lemma drop_prefix (p rest : string) :
  Js.drop (String.length p) (p ++ rest) = rest.
Proof. induction p as [|c p IH]; [now destruct rest | exact IH]. Qed.

Lemma map_keep_In {A B} (f : A -> option B) (xs : list A) (y : B) :
  In y (map_keep f xs) -> exists x, In x xs /\ f x = Some y.
Proof.
  induction xs as [|x xs IH]; cbn; [contradiction |].
  destruct (f x) as [y'|] eqn:Hfx.
  - intros [<- | Hin]; [eauto |].
    destruct (IH Hin) as (x' & Hx' & Hf). eauto.
  - intros Hin. destruct (IH Hin) as (x' & Hx' & Hf). eauto.
Qed.

Lemma match_refs_heads_step (line : string) :
  match_refs_heads line
  = match (if String.prefix "refs/heads/" line
           then match Js.drop 11 line with
                | EmptyString => None
                | rest => if dot_star_to_end rest then Some rest else None
                end
           else None) with
    | Some branch => Some branch
    | None =>
        match line with
        | EmptyString => None
        | String _ rest => match_refs_heads rest
        end
    end.
Proof. destruct line; reflexivity. Qed.

Lemma match_refs_heads_sound (line branch : string) :
  match_refs_heads line = Some branch ->
  branch <> "" /\ dot_star_to_end branch = true
  /\ exists before, line = before ++ "refs/heads/" ++ branch.
Proof.
  induction line as [|c line IH].
  - cbn. discriminate.
  - cbn [match_refs_heads].
    destruct (String.prefix "refs/heads/" (String c line)) eqn:Hpre.
    + destruct (prefix_app _ _ Hpre) as [rest Hrest].
      rewrite Hrest at 1.
      change 11 with (String.length "refs/heads/"). rewrite drop_prefix.
      destruct rest as [|r rest'].
      * intros Hm. destruct (IH Hm) as (Hne & Hdot & before & ->).
        repeat split; try assumption. now exists (String c before).
      * destruct (dot_star_to_end (String r rest')) eqn:Hdot.
        -- intros [= <-]. repeat split; [discriminate | exact Hdot |].
           exists "". exact Hrest.
        -- intros Hm. destruct (IH Hm) as (Hne & Hdot' & before & ->).
           repeat split; try assumption. now exists (String c before).
    + intros Hm. destruct (IH Hm) as (Hne & Hdot & before & ->).
      repeat split; try assumption. now exists (String c before).
Qed.

(** X12: A line of [git ls-remote --heads]: what precedes [refs/heads/] (the
    object name and a tab) has no letter "r", and the branch name is not
    empty and has no line terminator in it.  The branch read from such a
    line is the whole name, slashes and further [refs/heads/] included. *)
Theorem match_refs_heads_reads_branch (before branch : string) :
  all_chars (fun c => negb (Ascii.eqb c "r")) before = true ->
  branch <> "" ->
  dot_star_to_end branch = true ->
  match_refs_heads (before ++ "refs/heads/" ++ branch) = Some branch.
Proof.
  intros Hbefore Hne Hdot.
  induction before as [|c before IH].
  - destruct branch as [|b branch]; [now contradiction Hne |].
    change ("" ++ "refs/heads/" ++ String b branch)
      with ("refs/heads/" ++ String b branch).
    rewrite match_refs_heads_step.
    change (String.prefix "refs/heads/"
              ("refs/heads/" ++ String b branch)) with true.
    change (Js.drop 11 ("refs/heads/" ++ String b branch))
      with (String b branch).
    cbv beta iota zeta. now rewrite Hdot.
  - cbn [all_chars] in Hbefore. apply andb_true_iff in Hbefore.
    destruct Hbefore as [Hc Hbefore].
    change (String c before ++ "refs/heads/" ++ branch)
      with (String c (before ++ "refs/heads/" ++ branch)).
    rewrite match_refs_heads_step.
    assert (Hpre : String.prefix "refs/heads/"
                     (String c (before ++ "refs/heads/" ++ branch))
                   = false).
    { change (match ascii_dec "r" c with
              | left _ =>
                  String.prefix "efs/heads/"
                                (before ++ "refs/heads/" ++ branch)
              | right _ => false
              end = false).
      destruct (ascii_dec "r" c) as [<- |]; [| reflexivity].
      cbn in Hc. discriminate Hc. }
    rewrite Hpre. apply IH. exact Hbefore.
Qed.

Lemma match_refs_heads_reads_branch_witness :
  all_chars (fun c => negb (Ascii.eqb c "r"))
            "d7b0a24b046d00b6aeac1280e4d1a74297551444 " = true
  /\ match_refs_heads
       "d7b0a24b046d00b6aeac1280e4d1a74297551444 refs/heads/feature/refs/heads/x"
     = Some "feature/refs/heads/x".
Proof.
  split; [reflexivity |].
  apply (match_refs_heads_reads_branch
           "d7b0a24b046d00b6aeac1280e4d1a74297551444 "
           "feature/refs/heads/x");
    [reflexivity | discriminate | reflexivity].
Defined.

Section RemoteBranches.

Context {H : Host}.

Lemma logger_logError_events action command e w :
  events (logger_logError action command e w) = [].
Proof.
  unfold logger_logError, getLogFilePath, now_iso, appendFileSync, bind, ret.
  destruct (Date_toISOString w) as [t w1]. cbn [events result final].
  destruct (Date_toISOString w1) as [t' w2]. cbn [events result final].
  match goal with
  | |- context [fs_appendFileSync ?p ?d ?w] =>
      destruct (fs_appendFileSync p d w) as [[thrown|] w3]
  end; reflexivity.
Qed.

Lemma bind_throw {A B} (e : Js.error) (k : A -> M B) w :
  bind (throw e) k w = throw e w.
Proof. reflexivity. Qed.

Lemma try_catch_throw {A} (e : Js.error) (h : Js.error -> M A) w :
  try_catch (throw e) h w = h e w.
Proof. unfold try_catch, throw. cbn. now destruct (h e w). Qed.

Lemma try_catch_inr {A} (m : M A) (h : Js.error -> M A) w a :
  (forall e w', exists e', result (h e w') = inl e') ->
  result (try_catch m h w) = inr a ->
  result (m w) = inr a.
Proof.
  intros Hh. unfold try_catch.
  destruct (result (m w)) as [e|a'] eqn:Hm; cbn [result].
  - destruct (Hh e (final (m w))) as [e' ->]. discriminate.
  - now rewrite Hm.
Qed.

Lemma getGitBranches_refused (gitUrl : Js.value) w :
  Js.truthy gitUrl = false ->
  let refused := Js.Error "Git URL not provided or invalid" in
  let written :=
    logger_logError "List Branches" ("git ls-remote " ++ Js.toString gitUrl)
                    refused w in
  events (getGitBranches gitUrl w) = []
  /\ final (getGitBranches gitUrl w) = final written
  /\ result (getGitBranches gitUrl w)
     = match result written with
       | inl thrown => inl thrown
       | inr _ =>
           inl (Js.Error
                  "Failed to get git branches: Git URL not provided or invalid")
       end.
Proof.
  intros Hu. cbv zeta.
  unfold getGitBranches. rewrite Hu. cbn [negb].
  erewrite try_catch_body by apply bind_throw.
  rewrite try_catch_throw. unfold bind.
  pose proof (logger_logError_events
                "List Branches" ("git ls-remote " ++ Js.toString gitUrl)
                (Js.Error "Git URL not provided or invalid") w) as Hev.
  destruct (logger_logError "List Branches"
                            ("git ls-remote " ++ Js.toString gitUrl)
                            (Js.Error "Git URL not provided or invalid") w)
    as [evs w1 [thrown|[]]]; cbn [events result final] in *;
    subst evs; repeat split.
Qed.

(** X13: Without an address ([null], [undefined] or the empty string)
    [getGitBranches] prints nothing and spawns nothing; it writes the
    failure to the log and fails with "Failed to get git branches: Git URL
    not provided or invalid".  If writing the log line throws, that error
    is the one thrown, as it is. *)
Theorem getGitBranches_without_address (gitUrl : Js.value) w :
  Js.truthy gitUrl = false ->
  let refused := Js.Error "Git URL not provided or invalid" in
  let written :=
    logger_logError "List Branches" ("git ls-remote " ++ Js.toString gitUrl)
                    refused w in
  events (getGitBranches gitUrl w) = []
  /\ final (getGitBranches gitUrl w) = final written
  /\ result (getGitBranches gitUrl w)
     = match result written with
       | inl thrown => inl thrown
       | inr _ =>
           inl (Js.Error
                  "Failed to get git branches: Git URL not provided or invalid")
       end.
Proof. exact (getGitBranches_refused gitUrl w). Qed.

(** X14: With an address [getGitBranches] spawns one process, [git ls-remote
    --heads] with the address as a single argument, whatever the address
    contains; without one it spawns nothing. *)
Theorem getGitBranches_spawns (gitUrl : Js.value) w :
  spawned (events (getGitBranches gitUrl w))
  = if Js.truthy gitUrl
    then [("git", ["ls-remote"; "--heads"; Js.toString gitUrl])]
    else [].
Proof.
  destruct (Js.truthy gitUrl) eqn:Hu.
  - unfold getGitBranches. rewrite Hu. cbn [negb].
    rewrite spawned_try_quiet.
    2:{ intros e w'. rewrite bind_events, logger_logError_events.
        destruct (result (logger_logError _ _ e w')); reflexivity. }
    rewrite bind_ret. cbv zeta.
    rewrite bind_events. cbn [console_log emit events result final app spawned].
    match goal with
    | |- context [try_catch (bind (execCommand ?c ?a) ?k) ?h ?w] =>
        pose proof (guarded_call_spawned _ _ c a k h w) as HG
    end.
    destruct HG as [HG _].
    + intros out. cbv beta. auto 20 with silent.
    + intros e. cbv beta. auto 20 with silent.
    + rewrite HG. unfold GitCommand.lsRemote. rewrite Hu. reflexivity.
  - destruct (getGitBranches_refused gitUrl w Hu) as [-> _].
    reflexivity.
Qed.

(** X15: When [getGitBranches] returns, there was an address, [git ls-remote
    --heads] on it was spawned from the starting world and succeeded, and
    each branch returned is a non-empty text without line terminator that
    follows [refs/heads/] up to the end of a line of the output. *)
Theorem getGitBranches_returns_heads (gitUrl : Js.value) w branches :
  result (getGitBranches gitUrl w) = inr branches ->
  Js.truthy gitUrl = true
  /\ exists out w1,
      os_execFile "git" ["ls-remote"; "--heads"; Js.toString gitUrl] w
      = (inr out, w1)
      /\ branches = getGitBranches_parse (stdout out)
      /\ Forall (fun branch =>
                   branch <> "" /\ dot_star_to_end branch = true
                   /\ exists line before,
                       In line (split_on line_feed (stdout out))
                       /\ line = before ++ "refs/heads/" ++ branch)
                branches.
Proof.
  intros Hrun.
  destruct (Js.truthy gitUrl) eqn:Hu.
  2:{ destruct (getGitBranches_refused gitUrl w Hu) as (_ & _ & Hres).
      rewrite Hrun in Hres.
      destruct (result (logger_logError _ _ _ w)); discriminate. }
  split; [reflexivity |].
  unfold getGitBranches in Hrun. rewrite Hu in Hrun. cbn [negb] in Hrun.
  apply try_catch_inr in Hrun.
  2:{ intros e w'. unfold bind.
      destruct (result (logger_logError _ _ e w')); eexists; reflexivity. }
  rewrite bind_ret in Hrun. cbv zeta in Hrun.
  unfold bind at 1 in Hrun.
  cbn [console_log emit events result final] in Hrun.
  apply guarded_call_inr in Hrun.
  2:{ intros e w'.
      destruct (Js.str_startsWith (Js.toString gitUrl) "git@"
                && Js.includes (Js.message e) "Permission denied");
        [eexists; reflexivity |].
      destruct (Js.includes (Js.message e) "not found");
        eexists; reflexivity. }
  destruct Hrun as (out & w1 & Hspawn & Hk).
  unfold GitCommand.lsRemote in Hspawn. rewrite Hu in Hspawn.
  cbn [getBaseCommand getArgs GitCommand_Command GitCommand.baseCommand
         GitCommand.args GitCommand.new] in Hspawn.
  exists out, w1. split; [exact Hspawn |].
  assert (Hb : branches = getGitBranches_parse (stdout out)).
  { unfold bind, ret, console_log, emit in Hk.
    destruct (negb (stderr out =? "")); cbn [events result final] in Hk;
      congruence. }
  split; [exact Hb |]. subst branches.
  apply Forall_forall. intros branch Hin.
  unfold getGitBranches_parse in Hin.
  apply map_keep_In in Hin. destruct Hin as (line & Hline & Hm).
  apply filter_In in Hline. destruct Hline as [Hline _].
  destruct (match_refs_heads_sound line branch Hm)
    as (Hne & Hdot & before & Hbefore).
  repeat split; try assumption. eauto.
Qed.

End RemoteBranches.

Lemma getGitBranches_without_address_witness :
  let o := getGitBranches Js.Null (Scripted.start []) in
  Js.truthy Js.Null = false
  /\ events o = []
  /\ Scripted.logged (final o)
     = [("/app/.logs/log--20250517.txt",
         "[2025-05-17T09:30:00.000Z] ERROR: List Branches | COMMAND: git ls-remote null | ERROR: Git URL not provided or invalid"
         ++ newline)]
  /\ result o
     = inl (Js.Error
              "Failed to get git branches: Git URL not provided or invalid").
Proof.
  intros o. split; [reflexivity |].
  destruct (getGitBranches_without_address Js.Null (Scripted.start [])
                                           eq_refl)
    as (Hev & Hfin & Hres).
  split; [exact Hev |]. split.
  - unfold o. rewrite Hfin. reflexivity.
  - unfold o. rewrite Hres. reflexivity.
Defined.

Lemma getGitBranches_returns_heads_witness :
  let w := Scripted.start
             [Scripted.ok
                "d7b0a24b046d00b6aeac1280e4d1a74297551444 refs/heads/main"] in
  result (getGitBranches (Js.Str "git@github.com:org/repo.git") w)
  = inr ["main"]
  /\ Js.truthy (Js.Str "git@github.com:org/repo.git") = true.
Proof.
  intros w.
  assert (Hrun : result (getGitBranches
                           (Js.Str "git@github.com:org/repo.git") w)
                 = inr ["main"]) by (vm_compute; reflexivity).
  destruct (getGitBranches_returns_heads _ _ _ Hrun) as [Hu _].
  split; [exact Hrun | exact Hu].
Defined.

(* ===================================================================== *)
(** * The list operations *)
(* ===================================================================== *)

Section Lists.

Context {H : Host} {HA : HostArrays H}.

Ltac spawn_once :=
  cbv zeta;
  match goal with
  | |- context [try_catch (bind (execCommand ?c ?a) ?k) ?h ?w] =>
      let HG := fresh "HG" in
      pose proof (guarded_call_spawned _ _ c a k h w) as HG;
      destruct HG as [HG _];
      [ intros; cbv beta; auto 20 with silent
      | intros; cbv beta; auto 20 with silent
      | exact HG ]
  end.

(** X16: Each list operation spawns one process and no other: the list command
    with the instance and project flags first, and [--output-json] for all
    but the users list, whose output is read as text. *)
Theorem list_operations_spawn_once i p w :
  spawned (events (getProjectsWithDetails i w))
  = [("lagoon", (push_if i (fun s => ["-l"; s]) []
                 ++ ["list"; "projects"; "--output-json"])%list)]
  /\ spawned (events (getProjects i w))
     = [("lagoon", (push_if i (fun s => ["-l"; s]) []
                    ++ ["list"; "projects"; "--output-json"])%list)]
  /\ spawned (events (getEnvironments i p w))
     = [("lagoon", (push_if p (fun s => ["-p"; s])
                            (push_if i (fun s => ["-l"; s]) [])
                    ++ ["list"; "environments"; "--output-json"])%list)]
  /\ spawned (events (getUsers i p w))
     = [("lagoon", (push_if p (fun s => ["-p"; s])
                            (push_if i (fun s => ["-l"; s]) [])
                    ++ ["list"; "all-users"])%list)].
Proof.
  assert (Hassoc : forall (a : list string) x y,
             ((a ++ [x; y]) ++ ["--output-json"])%list
             = (a ++ [x; y; "--output-json"])%list)
    by (intros; now rewrite <- app_assoc).
  repeat split.
  - unfold getProjectsWithDetails.
    replace (push_if i (fun s => ["-l"; s]) []
             ++ ["list"; "projects"; "--output-json"])%list
      with (getArgs (listProjects_command i)) by apply Hassoc.
    spawn_once.
  - unfold getProjects.
    replace (push_if i (fun s => ["-l"; s]) []
             ++ ["list"; "projects"; "--output-json"])%list
      with (getArgs (listProjects_command i)) by apply Hassoc.
    spawn_once.
  - unfold getEnvironments.
    replace (push_if p (fun s => ["-p"; s])
                     (push_if i (fun s => ["-l"; s]) [])
             ++ ["list"; "environments"; "--output-json"])%list
      with (getArgs (listEnvironments_command i p)) by apply Hassoc.
    spawn_once.
  - unfold getUsers. spawn_once.
Qed.

Lemma wrapped_failure {A} (m : M A) (describe : Js.error -> string) w e :
  result (try_catch m (fun error => throw (Js.Error (describe error))) w)
  = inl e ->
  exists cause, result (m w) = inl cause /\ e = Js.Error (describe cause).
Proof.
  unfold try_catch.
  destruct (result (m w)) as [cause|a] eqn:Hm; cbn [result throw].
  - intros [= <-]. eauto.
  - rewrite Hm. discriminate.
Qed.

Lemma execCommand_result C {cmd : Command C} (command : C) action w :
  result (execCommand command action w)
  = execCommand_outcome action (toString command)
      (os_execFile (getBaseCommand command) (getArgs command) w).
Proof.
  unfold execCommand, execute, executor_logger, bind, try_catch, console_log,
    emit, execFileAsync, guarded_logAction, guarded_logError, call_method,
    as_method, throw, ret, execCommand_outcome, surfaced.
  cbn [events result final logAction logError].
  destruct (os_execFile (getBaseCommand command) (getArgs command) w)
    as [[e|out] w1]; cbn [events result final].
  - destruct (result (logger_logError action (toString command) e w1));
      reflexivity.
  - destruct (result (logger_logAction action (toString command) "Success"
                                       w1)) as [thrown|[]];
      cbn [events result final]; [| reflexivity].
    destruct (result (logger_logError action (toString command) thrown _));
      reflexivity.
Qed.

(** The cause of a failed body that runs [execCommand] and then decodes
    its output without further calls. *)
Lemma decoding_body_failure C {cmd : Command C} A (command : C) action
      (decode : string -> Js.error + A) w cause :
  result (bind (execCommand command action)
               (fun out => lift (decode (stdout out))) w) = inl cause ->
  let ended :=
    execCommand_outcome action (toString command)
      (os_execFile (getBaseCommand command) (getArgs command) w) in
  ended = inl cause
  \/ exists out, ended = inr out /\ decode (stdout out) = inl cause.
Proof.
  cbv zeta. rewrite <- execCommand_result. unfold bind, lift.
  destruct (result (execCommand command action w)) as [e|out];
    cbn [events result final].
  - intros [= ->]. now left.
  - intros Hdecode. right. eauto.
Qed.

(** X17: A list operation that fails, at any step (the spawn, the log
    line, the JSON syntax, a missing [data], an element without the field
    read), fails with an [Error] whose message is the operation's prefix,
    the name it was asked about, and the message of the cause: the error
    [execCommand] ended with or, when it resolved, the first error thrown
    while reading its output. *)
Theorem list_operations_wrap_failures i p w e :
  let projects :=
    execCommand_outcome ("List Projects for " ++ Js.toString i)
      (toString (listProjects_command i))
      (os_execFile "lagoon" (getArgs (listProjects_command i)) w) in
  let environments :=
    execCommand_outcome ("List Environments for " ++ Js.toString p)
      (toString (listEnvironments_command i p))
      (os_execFile "lagoon" (getArgs (listEnvironments_command i p)) w) in
  let users_command :=
    LagoonCommand.new
    |> LagoonCommand.withInstance i
    |> LagoonCommand.withProject p
    |> LagoonCommand.listUsers in
  let users :=
    execCommand_outcome ("List Users for " ++ Js.toString p)
      (toString users_command)
      (os_execFile "lagoon" (getArgs users_command) w) in
  (result (getProjectsWithDetails i w) = inl e ->
   exists cause,
     e = Js.Error ("Failed to get projects for instance " ++ Js.toString i
                   ++ ": " ++ Js.message cause)
     /\ (projects = inl cause
         \/ exists out,
             projects = inr out /\ decode_data (stdout out) = inl cause))
  /\ (result (getProjects i w) = inl e ->
      exists cause,
        e = Js.Error ("Failed to get projects for instance "
                      ++ Js.toString i ++ ": " ++ Js.message cause)
        /\ (projects = inl cause
            \/ exists out,
                projects = inr out
                /\ decode_fields "projectname" (stdout out) = inl cause))
  /\ (result (getEnvironments i p w) = inl e ->
      exists cause,
        e = Js.Error ("Failed to get environments for project "
                      ++ Js.toString p ++ ": " ++ Js.message cause)
        /\ (environments = inl cause
            \/ exists out,
                environments = inr out
                /\ decode_fields "name" (stdout out) = inl cause))
  /\ (result (getUsers i p w) = inl e ->
      exists cause,
        e = Js.Error ("Failed to get users for project "
                      ++ Js.toString p ++ ": " ++ Js.message cause)
        /\ users = inl cause).
Proof.
  cbv zeta. split; [| split; [| split]]; intros Hrun;
    apply wrapped_failure in Hrun; destruct Hrun as (cause & Hbody & ->);
    exists cause; (split; [reflexivity |]).
  - change (os_execFile "lagoon")
      with (os_execFile (getBaseCommand (listProjects_command i))).
    apply (decoding_body_failure _ _ (listProjects_command i) _ decode_data).
    rewrite <- Hbody. unfold decode_data, bind, lift.
    destruct (result (execCommand _ _ w)) as [e|out]; [reflexivity |].
    cbn [events result final]. now destruct (JSON_parse (stdout out)).
  - change (os_execFile "lagoon")
      with (os_execFile (getBaseCommand (listProjects_command i))).
    apply (decoding_body_failure _ _ (listProjects_command i) _
                                 (decode_fields "projectname")).
    rewrite <- Hbody. unfold decode_fields, decode_data, bind, lift.
    destruct (result (execCommand _ _ w)) as [e|out]; [reflexivity |].
    cbn [events result final].
    destruct (JSON_parse (stdout out)) as [e|parsed];
      cbn [events result final]; [reflexivity |].
    destruct (Json_get parsed "data") as [e|data];
      cbn [events result final]; [reflexivity |].
    now destruct (Json_elements data).
  - change (os_execFile "lagoon")
      with (os_execFile (getBaseCommand (listEnvironments_command i p))).
    apply (decoding_body_failure _ _ (listEnvironments_command i p) _
                                 (decode_fields "name")).
    rewrite <- Hbody. unfold decode_fields, decode_data, bind, lift.
    destruct (result (execCommand _ _ w)) as [e|out]; [reflexivity |].
    cbn [events result final].
    destruct (JSON_parse (stdout out)) as [e|parsed];
      cbn [events result final]; [reflexivity |].
    destruct (Json_get parsed "data") as [e|data];
      cbn [events result final]; [reflexivity |].
    now destruct (Json_elements data).
  - cbv zeta in Hbody.
    change (os_execFile "lagoon")
      with (os_execFile
              (getBaseCommand
                 (LagoonCommand.new
                  |> LagoonCommand.withInstance i
                  |> LagoonCommand.withProject p
                  |> LagoonCommand.listUsers))).
    rewrite <- execCommand_result.
    unfold bind, ret in Hbody.
    destruct (result (execCommand _ _ w)) as [e|out];
      cbn [events result final] in Hbody; [congruence | discriminate].
Qed.

End Lists.

(* ===================================================================== *)
(** * The log file of the day *)
(* ===================================================================== *)

Section LogFile.

Context {H : Host}.

Lemma split_head_app (sep : ascii) (s rest : string) :
  all_chars (fun c => negb (Ascii.eqb c sep)) s = true ->
  split_head sep (s ++ String sep rest) = s.
Proof.
  induction s as [|c s IH]; cbn.
  - now rewrite Ascii.eqb_refl.
  - rewrite andb_true_iff. intros [Hc Hs].
    destruct (Ascii.eqb c sep); [discriminate |]. now rewrite IH.
Qed.

(** X18: The log file is chosen by the date alone: for a clock reading made of
    a date, the letter T and anything after, the path is [log--] followed
    by the date without its hyphens and [.txt], in the log directory;
    reading the clock is all [getLogFilePath] does to the world. *)
Theorem getLogFilePath_by_date (date time : string) w w' :
  Date_toISOString w = (date ++ "T" ++ time, w') ->
  all_chars (fun c => negb (Ascii.eqb c "T")) date = true ->
  getLogFilePath w
  = {| events := [];
       final := w';
       result := inr (path_join LOG_DIR
                                ("log--" ++ remove_all "-" date ++ ".txt")) |}.
Proof.
  intros Hclock Hdate.
  unfold getLogFilePath, now_iso, bind, ret. rewrite Hclock.
  cbn [events result final app].
  change (date ++ "T" ++ time) with (date ++ String "T" time).
  now rewrite split_head_app.
Qed.

End LogFile.

Lemma getLogFilePath_by_date_witness :
  Date_toISOString (Scripted.start [])
  = ("2025-05-17" ++ "T" ++ "09:30:00.000Z", Scripted.start [])
  /\ result (getLogFilePath (Scripted.start []))
     = inr "/app/.logs/log--20250517.txt".
Proof.
  split; [reflexivity |].
  rewrite (getLogFilePath_by_date
             "2025-05-17" "09:30:00.000Z" (Scripted.start [])
             (Scripted.start []) eq_refl eq_refl).
  reflexivity.
Defined.

(* ===================================================================== *)
(** * What the flows offer and what the operations accept *)
(* ===================================================================== *)



Lemma deleteEnvironmentFlow_keeps_guard (env : Js.value) :
  deleteEnvironmentFlow_keeps env
  = not_throwing (deleteEnvironment_protected env).
Proof.
  unfold deleteEnvironmentFlow_keeps, deleteEnvironment_protected,
    and_also, or_else, not_throwing.
  destruct (Js.strictEq env "production"), (Js.strictEq env "master"),
    (Js.strictEq env "develop"); cbn [negb]; try reflexivity.
Qed.



Section LoginFlow.

Context {H : Host}.

(** X20: The environments [generateLoginLinkFlow] offers are exactly the listed
    ones [generateLoginLink] does not refuse, and for each of them
    [generateLoginLink] goes on to spawn its command. *)
Theorem generateLoginLinkFlow_offers_the_eligible
        i p (allEnvironments : list Js.value) w :
  generateLoginLinkFlow_eligible allEnvironments
  = filter (fun env => negb (generateLoginLink_protected env))
           allEnvironments
  /\ (forall env,
         In env (generateLoginLinkFlow_eligible allEnvironments)
         <-> In env allEnvironments
             /\ generateLoginLink_protected env = false)
  /\ Forall (fun env =>
               spawned (events (generateLoginLink i p env w))
               = [("lagoon", getArgs (generateLoginLink_command i p env))])
            (generateLoginLinkFlow_eligible allEnvironments).
Proof.
  assert (Heq : generateLoginLinkFlow_eligible allEnvironments
                = filter (fun env => negb (generateLoginLink_protected env))
                         allEnvironments).
  { unfold generateLoginLinkFlow_eligible. apply filter_ext. intros env.
    unfold generateLoginLinkFlow_keeps, generateLoginLink_protected.
    now rewrite negb_orb. }
  assert (Hin : forall env,
             In env (generateLoginLinkFlow_eligible allEnvironments)
             <-> In env allEnvironments
                 /\ generateLoginLink_protected env = false).
  { intros env. rewrite Heq, filter_In, negb_true_iff. tauto. }
  split; [exact Heq |]. split; [exact Hin |].
  apply Forall_forall. intros env Henv. apply Hin in Henv.
  destruct Henv as [_ Hp].
  now destruct (generateLoginLink_proceeds i p env w Hp).
Qed.

End LoginFlow.

(* ===================================================================== *)
(** * Where the GitHub address is what the documentation says *)
(* ===================================================================== *)

Lemma prefix_cons (a b : ascii) (p s : string) :
  String.prefix (String a p) (String b s) = Ascii.eqb a b && String.prefix p s.
Proof.
  cbn [String.prefix]. destruct (ascii_dec a b) as [<- | Hne].
  - now rewrite Ascii.eqb_refl.
  - apply Ascii.eqb_neq in Hne. now rewrite Hne.
Qed.

Lemma prefix_empty (s : string) : String.prefix "" s = true.
Proof. now destruct s. Qed.

Lemma prefix_self (p rest : string) : String.prefix p (p ++ rest) = true.
Proof.
  induction p as [|c q IH]; [now destruct rest |].
  cbn [String.append]. now rewrite prefix_cons, Ascii.eqb_refl, IH.
Qed.

Lemma includes_here (s p : string) :
  String.prefix p s = true -> Js.includes s p = true.
Proof. intros Hp. destruct s; cbn [Js.includes]; now rewrite Hp. Qed.

Lemma includes_inside (before p rest : string) :
  Js.includes (before ++ p ++ rest) p = true.
Proof.
  induction before as [|c before IH].
  - change ("" ++ p ++ rest) with (p ++ rest).
    apply includes_here, prefix_self.
  - cbn [String.append Js.includes]. rewrite IH.
    now destruct (String.prefix p (String c (before ++ p ++ rest))).
Qed.

Lemma replace_here (s pat rep : string) :
  String.prefix pat s = true ->
  Js.replace s pat rep = rep ++ Js.drop (String.length pat) s.
Proof. intros Hp. destruct s; cbn [Js.replace]; now rewrite Hp. Qed.

(** [gitUrlToGithubUrl] on a non-empty text. *)
Lemma gitUrlToGithubUrl_step (s : string) :
  s <> "" ->
  gitUrlToGithubUrl (Js.Str s)
  = if Js.str_startsWith s "git@github.com:"
    then Some ("https://github.com/"
               ++ Js.replace (Js.replace s "git@github.com:" "") ".git" "")
    else if Js.includes s "github.com"
         then Some (Js.replace s ".git" "")
         else None.
Proof.
  intros Hne. unfold gitUrlToGithubUrl. cbn [Js.truthy Js.toString].
  destruct s; [now contradiction Hne | reflexivity].
Qed.

Lemma replace_absent (s pat rep : string) :
  Js.includes s pat = false -> Js.replace s pat rep = s.
Proof.
  induction s as [|c s IH]; cbn [Js.includes Js.replace].
  - now destruct (String.prefix pat "").
  - destruct (String.prefix pat (String c s)); [discriminate |].
    intros Hs. now rewrite IH.
Qed.

Lemma replace_git_suffix (s : string) :
  Js.includes s ".git" = false -> Js.replace (s ++ ".git") ".git" "" = s.
Proof.
  induction s as [|c s IH]; [reflexivity |].
  cbn [Js.includes]. 
  destruct (String.prefix ".git" (String c s)) eqn:Hhere; [discriminate |].
  intros Hs. cbn [String.append Js.replace].
  assert (Hnot : String.prefix ".git" (String c (s ++ ".git")) = false).
  { destruct s as [|c2 [|c3 [|c4 s']]]; cbn [String.append] in *;
      rewrite ?prefix_cons, ?prefix_empty in *;
      destruct (Ascii.eqb_spec "." c) as [<- |]; cbn [andb] in *;
      try reflexivity;
      try (destruct (Ascii.eqb_spec "g" c2) as [<- |]; cbn [andb] in *;
           try reflexivity;
           try (destruct (Ascii.eqb_spec "i" c3) as [<- |]; cbn [andb] in *;
                try reflexivity;
                try (destruct (Ascii.eqb_spec "t" c4) as [<- |];
                     cbn [andb] in *; try reflexivity;
                     try discriminate))). }
  rewrite Hnot. now rewrite IH.
Qed.

(** X21: For a repository path in which [.git] does not occur, the conversion
    does what its documentation says: the SSH address and the HTTPS
    address, with the [.git] suffix, both give the HTTPS address without
    it, and the HTTPS address without suffix is returned as it is. *)
Theorem gitUrlToGithubUrl_on_plain_paths (path : string) :
  Js.includes path ".git" = false ->
  gitUrlToGithubUrl (Js.Str ("git@github.com:" ++ path ++ ".git"))
  = Some ("https://github.com/" ++ path)
  /\ gitUrlToGithubUrl (Js.Str ("https://github.com/" ++ path ++ ".git"))
     = Some ("https://github.com/" ++ path)
  /\ gitUrlToGithubUrl (Js.Str ("https://github.com/" ++ path))
     = Some ("https://github.com/" ++ path).
Proof.
  intros Hpath.
  assert (Hurl : Js.includes ("https://github.com/" ++ path) ".git" = false).
  { cbn [String.append Js.includes].
    rewrite ?prefix_cons. cbn [Ascii.eqb Bool.eqb andb]. exact Hpath. }
  split; [| split].
  - rewrite (gitUrlToGithubUrl_step ("git@github.com:" ++ path ++ ".git"))
      by discriminate.
    unfold Js.str_startsWith.
    rewrite (prefix_self "git@github.com:").
    rewrite (replace_here _ "git@github.com:" "")
      by apply prefix_self.
    rewrite drop_prefix.
    change ("" ++ path ++ ".git") with (path ++ ".git").
    now rewrite replace_git_suffix.
  - rewrite (gitUrlToGithubUrl_step
               ("https://github.com/" ++ path ++ ".git")) by discriminate.
    unfold Js.str_startsWith.
    replace (String.prefix "git@github.com:"
                           ("https://github.com/" ++ path ++ ".git"))
      with false
      by (cbn [String.append]; rewrite prefix_cons; reflexivity).
    replace (Js.includes ("https://github.com/" ++ path ++ ".git")
                         "github.com")
      with true
      by (symmetry;
          exact (includes_inside "https://" "github.com"
                                 ("/" ++ path ++ ".git"))).
    change ("https://github.com/" ++ path ++ ".git")
      with (("https://github.com/" ++ path) ++ ".git").
    now rewrite replace_git_suffix.
  - rewrite (gitUrlToGithubUrl_step ("https://github.com/" ++ path))
      by discriminate.
    unfold Js.str_startsWith.
    replace (String.prefix "git@github.com:" ("https://github.com/" ++ path))
      with false
      by (cbn [String.append]; rewrite prefix_cons; reflexivity).
    replace (Js.includes ("https://github.com/" ++ path) "github.com")
      with true
      by (symmetry;
          exact (includes_inside "https://" "github.com" ("/" ++ path))).
    now rewrite replace_absent.
Qed.

Lemma gitUrlToGithubUrl_on_plain_paths_witness :
  Js.includes "org/repo.name" ".git" = false
  /\ gitUrlToGithubUrl (Js.Str "git@github.com:org/repo.name.git")
     = Some "https://github.com/org/repo.name".
Proof.
  split; [reflexivity |].
  destruct (gitUrlToGithubUrl_on_plain_paths "org/repo.name" eq_refl)
    as [Hssh _].
  exact Hssh.
Defined.

(* ===================================================================== *)
(** * Pull-request environments are never protected *)
(* ===================================================================== *)

(** X22: An environment named after a pull request (one [extractPrNumber]
    reads a number from) is protected neither from deletion nor from login
    links: the flows offer it and the operations accept it. *)
Theorem pull_request_environments_unprotected (name number : string) :
  extractPrNumber (Js.Str name) = Some number ->
  deleteEnvironment_protected (Js.Str name) = inr false
  /\ generateLoginLink_protected (Js.Str name) = false
  /\ deleteEnvironmentFlow_keeps (Js.Str name) = inr true
  /\ generateLoginLinkFlow_keeps (Js.Str name) = true.
Proof.
  intros Hpr. apply extractPrNumber_inv in Hpr.
  destruct Hpr as (p & r & [= ->] & Hp & Hr & _ & _).
  rewrite deleteEnvironmentFlow_keeps_guard, deleteEnvironment_protected_str.
  destruct Hp as [-> | ->], Hr as [-> | ->]; repeat split.
Qed.

Lemma pull_request_environments_unprotected_witness :
  extractPrNumber (Js.Str "PR-42") = Some "42"
  /\ deleteEnvironment_protected (Js.Str "PR-42") = inr false.
Proof.
  split; [reflexivity |].
  destruct (pull_request_environments_unprotected "PR-42" "42" eq_refl)
    as [Hd _].
  exact Hd.
Defined.

(* ===================================================================== *)
(** * Responses that are not a success *)
(* ===================================================================== *)

Section Responses.

Context {H : Host}.





End Responses.


